(** * mcp-streamable-example: the streaming query tool, the DuckDB manager
      and the session registry, embedded in Rocq.

    The development follows the three TypeScript sources:
    - [src/database/db.ts]       (class [DatabaseManager]),
    - [src/tools/dbQueryTool.ts] (class [DbQueryTool]),
    - [src/server.ts]            (class [MCPDuckDBServer], session map).

    Definitions come first (strings, values, dates, the effect monad, the
    three source files), the lemmas and theorems follow. *)

From Stdlib Require Import ZArith Lia Ascii String DecimalString.
From Stdlib Require DecimalFacts DecimalPos DecimalZ.
From stdpp Require Import base option list strings gmap fin_maps.

Local Open Scope Z_scope.

(* ===================================================================== *)
(** * 1. JavaScript strings                                               *)
(* ===================================================================== *)

(** A JavaScript string is a sequence of UTF-16 code units.  The model keeps
    the code units below 256 (the Latin-1 range, which contains all of
    ASCII), one [ascii] per code unit.  On that range [toLowerCase] works
    unit by unit and never changes the length. *)

Definition charCode (c : ascii) : Z := Z.of_N (N_of_ascii c).

(** WhiteSpace and LineTerminator code units of ECMAScript below 256:
    TAB, LF, VT, FF, CR, SP and NBSP. *)
Definition isWhiteSpace (c : ascii) : bool :=
  let n := charCode c in
  (n =? 9) || (n =? 10) || (n =? 11) || (n =? 12) || (n =? 13) ||
  (n =? 32) || (n =? 160).

(** Unicode simple lower-case mapping on the Latin-1 range: A-Z, and
    U+00C0-U+00DE except the multiplication sign U+00D7, move up by 32. *)
Definition toLowerChar (c : ascii) : ascii :=
  let n := charCode c in
  if ((65 <=? n) && (n <=? 90)) ||
     ((192 <=? n) && (n <=? 222) && negb (n =? 215))
  then ascii_of_N (Z.to_N (n + 32))
  else c.

(** [String.prototype.toLowerCase] *)
Fixpoint toLowerCase (s : string) : string :=
  match s with
  | EmptyString => EmptyString
  | String c r => String (toLowerChar c) (toLowerCase r)
  end.

(** [String.prototype.trimStart] *)
Fixpoint trimStart (s : string) : string :=
  match s with
  | EmptyString => EmptyString
  | String c r => if isWhiteSpace c then trimStart r else s
  end.

(** [String.prototype.trimEnd] *)
Fixpoint trimEnd (s : string) : string :=
  match s with
  | EmptyString => EmptyString
  | String c r =>
      match trimEnd r with
      | EmptyString => if isWhiteSpace c then EmptyString else String c EmptyString
      | r' => String c r'
      end
  end.

(** [String.prototype.trim] *)
Definition trim (s : string) : string := trimEnd (trimStart s).

(** [s.startsWith(p)] *)
Fixpoint startsWith (s p : string) {struct p} : bool :=
  match p, s with
  | EmptyString, _ => true
  | String _ _, EmptyString => false
  | String a p', String b s' => if Ascii.eqb a b then startsWith s' p' else false
  end.

(** [s.includes(p)]: [p] occurs in [s] at some position. *)
Fixpoint includes (s p : string) : bool :=
  startsWith s p ||
  match s with
  | EmptyString => false
  | String _ r => includes r p
  end.

(** [occurs c s]: the character [c] occurs in [s]. *)
Fixpoint occurs (c : ascii) (s : string) : bool :=
  match s with
  | EmptyString => false
  | String d r => Ascii.eqb c d || occurs c r
  end.

(** A string that does not start with white space (it may be empty). *)
Definition headIsBlack (s : string) : Prop :=
  match s with
  | EmptyString => True
  | String c _ => isWhiteSpace c = false
  end.

(** The characters of a rendered integer. *)
Definition isNumberChar (c : ascii) : bool := occurs c "-0123456789".

(** Template-literal rendering [`${n}`] of an integral Number: its decimal
    numeral, which is what JavaScript prints for the safe integers,
    [|n| <= 2^53 - 1]; beyond them it prints the shortest digits that read
    back as the same double, and from 1e21 on the exponent form. *)
Definition numberToString (n : Z) : string :=
  NilZero.string_of_int (Z.to_int n).

(** [s.padStart(width, "0")] *)
Fixpoint padStart0 (fuel : nat) (width : nat) (s : string) : string :=
  match fuel with
  | O => s
  | S f => if (String.length s <? width)%nat then padStart0 f width (String "0" s) else s
  end.

(* ===================================================================== *)
(** * 2. JavaScript values, thrown values                                 *)
(* ===================================================================== *)

(** The values that DuckDB's [getRowObjects] hands over and that
    [JSON.stringify] receives.  Numbers are the integral ones (the columns of
    the [employees] table are INTEGER, BIGINT, VARCHAR, BOOLEAN and DATE); an
    object is the list of its own enumerable properties in [for ... in]
    order. *)
#[warnings="-register-all"]
Inductive JsVal : Type :=
| JUndefined
| JNull
| JBool (b : bool)
| JNumber (n : Z)
| JBigInt (n : Z)
| JString (s : string)
| JArray (items : list JsVal)
| JObject (props : list (string * JsVal)).

(** What a [throw] carries: an [Error] object with its message, or any other
    value. *)
Inductive Thrown : Type :=
| JsError (message : string)
| JsOther (v : JsVal).

(** [error instanceof Error ? error.message : fallback] *)
Definition messageOr (fallback : string) (e : Thrown) : string :=
  match e with
  | JsError m => m
  | JsOther _ => fallback
  end.

(** A call either throws or returns. *)
Definition Result (A : Type) : Type := (Thrown + A)%type.

(** [JSON.stringify(a)]: a JSON text is represented by the value it encodes,
    so that [JSON.parse] is its inverse.  (Every value that reaches
    [JSON.stringify] in these sources has gone through
    [convertBigIntsToNumbers] and contains no BigInt.) *)
Inductive Json (A : Type) : Type := JSON_stringify (a : A).
Arguments JSON_stringify {A} a.

Definition JSON_parse {A : Type} (j : Json A) : A :=
  match j with JSON_stringify a => a end.

(* ===================================================================== *)
(** * 3. The [Date] built-in (ECMA-262, "Date Objects")                   *)
(* ===================================================================== *)

(** Time values are milliseconds since 1970-01-01T00:00:00Z; [None] is the
    time value NaN of an invalid date.  The process environment enters
    through [LocalTZA t isUTC], the offset of local time in milliseconds. *)
Definition TimeZone : Type := Z -> bool -> Z.

Definition msPerDay : Z := 86400000.
Definition Day (t : Z) : Z := t / msPerDay.
Definition TimeWithinDay (t : Z) : Z := t mod msPerDay.

Definition DaysInYear (y : Z) : Z :=
  if (y mod 4 =? 0) && (negb (y mod 100 =? 0) || (y mod 400 =? 0))
  then 366 else 365.

Definition DayFromYear (y : Z) : Z :=
  365 * (y - 1970) + (y - 1969) / 4 - (y - 1901) / 100 + (y - 1601) / 400.

(** The largest year [y] with [DayFromYear y <= d]: an estimate from the
    mean year length, moved by one year where it is off. *)
Definition YearFromDay (d : Z) : Z :=
  let y := 1970 + (d * 400) / 146097 in
  if d <? DayFromYear y then y - 1
  else if DayFromYear (y + 1) <=? d then y + 1
  else y.

Definition YearFromTime (t : Z) : Z := YearFromDay (Day t).
Definition InLeapYear (y : Z) : Z := if DaysInYear y =? 366 then 1 else 0.

(** Number of days of the year before month [m] (0 = January). *)
Definition DaysBeforeMonth (leap m : Z) : Z :=
  match m with
  | 0 => 0
  | 1 => 31
  | 2 => 59 + leap
  | 3 => 90 + leap
  | 4 => 120 + leap
  | 5 => 151 + leap
  | 6 => 181 + leap
  | 7 => 212 + leap
  | 8 => 243 + leap
  | 9 => 273 + leap
  | 10 => 304 + leap
  | 11 => 334 + leap
  | _ => 365 + leap
  end.

Definition DayWithinYear (t : Z) : Z := Day t - DayFromYear (YearFromTime t).

Definition MonthFromTime (t : Z) : Z :=
  let leap := InLeapYear (YearFromTime t) in
  let d := DayWithinYear t in
  let fix find (fuel : nat) (m : Z) : Z :=
    match fuel with
    | O => m
    | S f => if d <? DaysBeforeMonth leap (m + 1) then m else find f (m + 1)
    end in
  find 11%nat 0.

Definition DateFromTime (t : Z) : Z :=
  DayWithinYear t - DaysBeforeMonth (InLeapYear (YearFromTime t)) (MonthFromTime t) + 1.

Definition MakeTime (hour min sec ms : Z) : Z :=
  hour * 3600000 + min * 60000 + sec * 1000 + ms.

Definition MakeDay (year month date : Z) : Z :=
  let ym := year + month / 12 in
  let mn := month mod 12 in
  DayFromYear ym + DaysBeforeMonth (InLeapYear ym) mn + date - 1.

Definition MakeDate (day time : Z) : Z := day * msPerDay + time.

Definition TimeClip (t : Z) : option Z :=
  if Z.abs t >? 8640000000000000 then None else Some t.

Section LocalTime.
Variable LocalTZA : TimeZone.

Definition LocalTime (t : Z) : Z := t + LocalTZA t true.
Definition UTC (t : Z) : Z := t - LocalTZA t false.

(** [new Date(year, month, date)]: the fields are read as local time. *)
Definition newDate (year month date : Z) : option Z :=
  let yr := if (0 <=? year) && (year <=? 99) then 1900 + year else year in
  TimeClip (UTC (MakeDate (MakeDay yr month date) (MakeTime 0 0 0 0))).

(** [Date.prototype.getDate] *)
Definition getDate (tv : option Z) : option Z :=
  t ← tv; Some (DateFromTime (LocalTime t)).

(** [Date.prototype.setDate]: returns the new time value. *)
Definition setDate (tv : option Z) (date : option Z) : option Z :=
  t ← tv;
  dt ← date;
  let t := LocalTime t in
  let newDate := MakeDate (MakeDay (YearFromTime t) (MonthFromTime t) dt)
                          (TimeWithinDay t) in
  TimeClip (UTC newDate).
End LocalTime.

Definition pad (width : nat) (n : Z) : string :=
  padStart0 width width (numberToString n).

(** The date and the time part of the ISO format, both read in UTC. *)
Definition isoDate (t : Z) : string :=
  let y := YearFromTime t in
  let year :=
    if (0 <=? y) && (y <=? 9999) then pad 4 y
    else (if y <? 0 then "-" else "+") +:+ pad 6 (Z.abs y) in
  year +:+ "-" +:+ pad 2 (MonthFromTime t + 1) +:+ "-" +:+ pad 2 (DateFromTime t).

Definition isoTime (t : Z) : string :=
  let w := TimeWithinDay t in
  pad 2 (w / 3600000) +:+ ":" +:+ pad 2 (w / 60000 mod 60) +:+ ":" +:+
  pad 2 (w / 1000 mod 60) +:+ "." +:+ pad 3 (w mod 1000) +:+ "Z".

(** [Date.prototype.toISOString]: always in UTC; a RangeError on an invalid
    date. *)
Definition toISOString (tv : option Z) : Result string :=
  match tv with
  | None => inl (JsError "Invalid time value")
  | Some t => inr (isoDate t +:+ "T" +:+ isoTime t)
  end.

(** [s.split('T')[0]]: the part of [s] before its first 'T'. *)
Fixpoint splitT0 (s : string) : string :=
  match s with
  | EmptyString => EmptyString
  | String c r => if Ascii.eqb c "T" then EmptyString else String c (splitT0 r)
  end.

(** Time zones with a fixed offset: UTC itself, Asia/Kolkata (UTC+05:30
    since 1945) and New York in winter (UTC-05:00). *)
Definition tzFixed (offset : Z) : TimeZone := fun _ _ => offset.
Definition tzUTC : TimeZone := tzFixed 0.
Definition tzKolkata : TimeZone := tzFixed 19800000.
Definition tzNewYorkWinter : TimeZone := tzFixed (-18000000).

(* ===================================================================== *)
(** * 4. Effects: calls to the database manager, yielded events, throw    *)
(* ===================================================================== *)

(** A row as it leaves the database manager. *)
Definition Row : Type := JsVal.

(** The four wire events of [executeStreamingTool]. *)
Inductive Event : Type :=
| query_start (query : string) (columns : list string) (timestamp : string)
| data_chunk (chunk : list Row) (chunkNumber rowsInChunk totalRowsSoFar : nat)
| query_complete (totalRows totalChunks : nat) (executionTime : Z) (completed : bool)
| query_error (error : bool) (message : string) (timestamp : string).

(** A query handed to the database manager, and thereby to the store. *)
Inductive DbCall : Type :=
| CallExecuteQuery (sql : string)
| CallExecuteStreamingQuery (sql : string) (chunkSize : nat).

(** A computation of the tool: the manager calls it made, the event strings
    it yielded, both in order, and how it ended.  A [throw] keeps what was
    called and yielded before it. *)
Record M (A : Type) : Type := mkM {
  calls : list DbCall;
  events : list (Json Event);
  result : Result A
}.
Arguments mkM {A} _ _ _.
Arguments calls {A} _.
Arguments events {A} _.
Arguments result {A} _.

#[global] Instance M_ret : MRet M := fun A a => mkM [] [] (inr a).

#[global] Instance M_bind : MBind M := fun A B f m =>
  match result m with
  | inl e => mkM (calls m) (events m) (inl e)
  | inr a => let m' := f a in
             mkM (calls m ++ calls m') (events m ++ events m') (result m')
  end.

Definition throw {A : Type} (e : Thrown) : M A := mkM [] [] (inl e).

(** [try { m } catch (error) { handler error }] *)
Definition try_catch {A : Type} (m : M A) (handler : Thrown -> M A) : M A :=
  match result m with
  | inl e => let h := handler e in
             mkM (calls m ++ calls h) (events m ++ events h) (result h)
  | inr _ => m
  end.

(** [yield s] *)
Definition yield (s : Json Event) : M unit := mkM [] [s] (inr tt).

(** [await this.sleep(ms)]: the delay has no effect besides time. *)
Definition sleep (ms : Z) : M unit := mret tt.

(** A call of a manager method: logged, then its outcome. *)
Definition invoke {A : Type} (c : DbCall) (r : Result A) : M A := mkM [c] [] r.

(** [for (const x of l) body], with the loop's local variables as [st]. *)
Fixpoint foldM {A S : Type} (body : S -> A -> M S) (l : list A) (st : S) : M S :=
  match l with
  | [] => mret st
  | x :: r => st' ← body st x; foldM body r st'
  end.

(** What driving an async generator to its end observes: the values it
    yielded and, when it ended by throwing, the thrown value. *)
Record GenRun (A : Type) : Type := mkGenRun {
  yielded : list A;
  failure : option Thrown
}.
Arguments mkGenRun {A} _ _.
Arguments yielded {A} _.
Arguments failure {A} _.

(** [for await (const x of g) body] *)
Definition forAwait {A S : Type} (c : DbCall) (g : GenRun A)
    (body : S -> A -> M S) (st : S) : M S :=
  _ ← invoke c (inr tt);
  st' ← foldM body (yielded g) st;
  match failure g with
  | Some e => throw e
  | None => mret st'
  end.

(** [for await (const event of gen) events.push(event)] over a generator of
    this class: the events are collected instead of being passed on. *)
Definition collect (gen : M unit) : M (list (Json Event)) :=
  mkM (calls gen) []
      (match result gen with inl e => inl e | inr _ => inr (events gen) end).

(* ===================================================================== *)
(** * 5. [src/database/db.ts]                                             *)
(* ===================================================================== *)

(** [interface QueryResponse] of [src/types/index.ts] *)
Record QueryResponse : Type := mkQueryResponse {
  data : list Row;
  columns : list string;
  rowCount : nat;
  executionTime : Z
}.

(** The part of [DatabaseManager] that [DbQueryTool] uses. *)
Record DatabaseManager : Type := mkDatabaseManager {
  validateQuery : string -> bool;
  executeQuery : string -> Result QueryResponse;
  executeStreamingQuery : string -> nat -> GenRun (list Row)
}.

Module Db.

(** DuckDB's reader and connection, as far as they are used. *)
Record Reader : Type := mkReader {
  getRowObjects : list JsVal;
  columnNames : list string
}.

Record Connection : Type := mkConnection {
  runAndReadAll : string -> Result Reader
}.

(** The private fields of the class. *)
Record State : Type := mkState {
  connection : option Connection;
  initialized : bool
}.

(** [Number(obj)] on a BigInt: the nearest double, ties to even (doubles
    hold 53 significant bits). *)
Definition Number (n : Z) : Z :=
  let a := Z.abs n in
  if a <? 2 ^ 53 then n
  else
    let e := Z.log2 a - 52 in
    let q := a / 2 ^ e in
    let r := a mod 2 ^ e in
    let half := 2 ^ (e - 1) in
    let q' := if (r >? half) || ((r =? half) && Z.odd q) then q + 1 else q in
    Z.sgn n * (q' * 2 ^ e).

(** [obj[key]] on the own properties. *)
Fixpoint getProp (props : list (string * JsVal)) (key : string) : option JsVal :=
  match props with
  | [] => None
  | (k, v) :: r => if String.eqb k key then Some v else getProp r key
  end.

(** [value && typeof value === 'object' && 'days' in value &&
     typeof value.days === 'number'], giving [value.days]. *)
Definition duckDBDateDays (value : JsVal) : option Z :=
  match value with
  | JObject props =>
      match getProp props "days" with
      | Some (JNumber days) => Some days
      | _ => None
      end
  | _ => None
  end.

Section Environment.
Variable LocalTZA : TimeZone.

(** Lines 90-92: the DuckDB date to its string. *)
Definition convertDate (days : Z) : Result string :=
  let epochDate := newDate LocalTZA 1970 0 1 in
  let epochDate :=
    setDate LocalTZA epochDate (d ← getDate LocalTZA epochDate; Some (d + days)) in
  match toISOString epochDate with
  | inl e => inl e
  | inr iso => inr (splitT0 iso)
  end.

Fixpoint convertBigIntsToNumbers (obj : JsVal) : Result JsVal :=
  match obj with
  | JBigInt n => inr (JNumber (Number n))
  | JArray items =>
      let fix map (l : list JsVal) : Result (list JsVal) :=
        match l with
        | [] => inr []
        | item :: r =>
            match convertBigIntsToNumbers item with
            | inl e => inl e
            | inr v => match map r with
                       | inl e => inl e
                       | inr vs => inr (v :: vs)
                       end
            end
        end in
      match map items with
      | inl e => inl e
      | inr vs => inr (JArray vs)
      end
  | JObject props =>
      let fix forIn (l : list (string * JsVal)) : Result (list (string * JsVal)) :=
        match l with
        | [] => inr []
        | (key, value) :: r =>
            let entry :=
              match duckDBDateDays value with
              | Some days =>
                  match convertDate days with
                  | inl e => inl e
                  | inr s => inr (JString s)
                  end
              | None => convertBigIntsToNumbers value
              end in
            match entry with
            | inl e => inl e
            | inr v => match forIn r with
                       | inl e => inl e
                       | inr converted => inr ((key, v) :: converted)
                       end
            end
        end in
      match forIn props with
      | inl e => inl e
      | inr converted => inr (JObject converted)
      end
  | _ => inr obj
  end.

(** The elements of an array value. *)
Definition arrayItems (v : JsVal) : list JsVal :=
  match v with
  | JArray items => items
  | _ => []
  end.

(** [rows.slice(i, j)] for [i <= j] *)
Definition slice (rows : list Row) (i j : nat) : list Row :=
  take (j - i)%nat (drop i rows).

(** [for (let i = 0; i < rows.length; i += chunkSize) yield rows.slice(i, i + chunkSize)].
    With a positive [chunkSize] the loop body runs at most [rows.length]
    times, which is the fuel given by [executeStreamingQuery]; the callers
    pass 1 and 50, and 100 is the default. *)
Fixpoint sliceLoop (fuel : nat) (rows : list Row) (i chunkSize : nat) : list (list Row) :=
  match fuel with
  | O => []
  | S f =>
      if (i <? length rows)%nat
      then slice rows i (i + chunkSize) :: sliceLoop f rows (i + chunkSize) chunkSize
      else []
  end.

Variable now : Z * Z.   (* the two readings of [Date.now()] in [executeQuery] *)

Definition executeQuery (this : State) (sql : string) : Result QueryResponse :=
  match initialized this, connection this with
  | true, Some connection =>
      let startTime := fst now in
      match runAndReadAll connection sql with
      | inl error => inl error
      | inr reader =>
          let rawRows := getRowObjects reader in
          let executionTime := snd now - startTime in
          let columns := columnNames reader in
          match convertBigIntsToNumbers (JArray rawRows) with
          | inl error => inl error
          | inr rows =>
              inr (mkQueryResponse (arrayItems rows) columns
                     (length (arrayItems rows)) executionTime)
          end
      end
  | _, _ => inl (JsError "Database not initialized")
  end.

Definition executeStreamingQuery (this : State) (sql : string) (chunkSize : nat)
    : GenRun (list Row) :=
  match initialized this, connection this with
  | true, Some connection =>
      match runAndReadAll connection sql with
      | inl error => mkGenRun [] (Some error)
      | inr reader =>
          let rawRows := getRowObjects reader in
          match convertBigIntsToNumbers (JArray rawRows) with
          | inl error => mkGenRun [] (Some error)
          | inr rows =>
              let rows := arrayItems rows in
              mkGenRun (sliceLoop (length rows) rows 0 chunkSize) None
          end
      end
  | _, _ => mkGenRun [] (Some (JsError "Database not initialized"))
  end.
End Environment.

Definition dangerousKeywords : list string :=
  ["drop"; "delete"; "update"; "insert"; "alter"; "create"; "truncate"].

Definition validateQuery (sql : string) : bool :=
  let sanitizedSql := trim (toLowerCase sql) in
  if negb (startsWith sanitizedSql "select") then false
  else
    (fix loop (keywords : list string) : bool :=
       match keywords with
       | [] => true
       | keyword :: rest =>
           if includes sanitizedSql keyword then false else loop rest
       end) dangerousKeywords.

(** The manager as [DbQueryTool] sees it. *)
Definition manager (LocalTZA : TimeZone) (now : Z * Z) (this : State) : DatabaseManager :=
  mkDatabaseManager validateQuery
                    (executeQuery LocalTZA now this)
                    (executeStreamingQuery LocalTZA this).

End Db.

(* ===================================================================== *)
(** * 6. [src/tools/dbQueryTool.ts]                                       *)
(* ===================================================================== *)

(** [interface DbQueryToolInput]: [limit] is optional. *)
Record DbQueryToolInput : Type := mkInput {
  sql : string;
  limit : option Z
}.

(** The clock readings of one run of a tool method. *)
Record Clock : Type := mkClock {
  startTimestamp : string;   (* [new Date().toISOString()] in query_start *)
  startTime : Z;             (* [Date.now()] before the loop *)
  endTime : Z;               (* [Date.now()] after the loop *)
  errorTimestamp : string;   (* [new Date().toISOString()] in query_error *)
  resultTimestamp : string   (* [new Date().toISOString()] in a returned object *)
}.

(** The local variables of the chunking loop. *)
Record LoopState : Type := mkLoopState {
  currentStreamChunk : list Row;
  totalRows : nat;
  chunkNumber : nat
}.

(** One entry of [streamExecute]'s [content]. *)
Record ContentEntry : Type := mkContentEntry {
  type : string;
  text : Json Row
}.

Record StreamMeta : Type := mkStreamMeta {
  meta_totalRows : nat;
  streamingEnabled : bool;
  meta_timestamp : string
}.

Record StreamResult : Type := mkStreamResult {
  content : list ContentEntry;
  _meta : StreamMeta
}.

(** The two objects [execute] serialises. *)
Inductive ExecuteOutput : Type :=
| ExecuteSuccess (success streaming : bool) (streamChunkSize : nat)
                 (events : list Event) (timestamp note : string)
| ExecuteFailure (error : bool) (message : string) (data : list Row) (totalRows : nat).

Definition schemaProbe : string := "SELECT * FROM employees LIMIT 0".

(** The messages of the two errors raised by the input checks. *)
Definition requiredMessage : string := "SQL query is required and must be a string".
Definition invalidMessage : string :=
  "Invalid SQL query. Only SELECT statements are allowed. Dangerous keywords (DROP, DELETE, UPDATE, INSERT, etc.) are not permitted.".

Section DbQueryTool.
Variable dbManager : DatabaseManager.
Variable clock : Clock.

(** The block "Validate input" and "Validate SQL query for security",
    the same in the three methods.  [input.sql] has type string, so
    [!input.sql] holds for the empty string only. *)
Definition validateInput (input : DbQueryToolInput) : M unit :=
  match sql input with
  | EmptyString => throw (JsError requiredMessage)
  | _ =>
      if negb (validateQuery dbManager (sql input))
      then throw (JsError invalidMessage)
      else mret tt
  end.

(** The block "Apply limit if specified", the same in the three methods. *)
Definition applyLimit (input : DbQueryToolInput) : string :=
  let sql := trim (sql input) in
  match limit input with
  | Some n =>
      if (negb (n =? 0)) && (n >? 0) then
        if negb (includes (toLowerCase sql) "limit")
        then sql +:+ " LIMIT " +:+ numberToString n
        else sql
      else sql
  | None => sql
  end.

Definition streamExecute (input : DbQueryToolInput) : M StreamResult :=
  try_catch
    (_ ← validateInput input;
     let sql := applyLimit input in
     '(content, rowCount) ←
       forAwait (CallExecuteStreamingQuery sql 1)
         (executeStreamingQuery dbManager sql 1)
         (fun st dbChunk =>
            foldM (fun '(content, rowCount) row =>
                     mret (content ++ [mkContentEntry "text" (JSON_stringify row)],
                           S rowCount))
                  dbChunk st)
         ([], 0%nat);
     mret (mkStreamResult content
             (mkStreamMeta rowCount true (resultTimestamp clock))))
    (fun error => throw (JsError (messageOr "Unknown error occurred" error))).

(** The body of the inner [for (const row of dbChunk)]. *)
Definition onRow (streamChunkSize : nat) (st : LoopState) (row : Row) : M LoopState :=
  let currentStreamChunk := currentStreamChunk st ++ [row] in
  let totalRows := S (totalRows st) in
  if (streamChunkSize <=? length currentStreamChunk)%nat then
    let chunkNumber := S (chunkNumber st) in
    _ ← yield (JSON_stringify
                 (data_chunk currentStreamChunk chunkNumber
                             (length currentStreamChunk) totalRows));
    _ ← sleep 1000;
    mret (mkLoopState [] totalRows chunkNumber)
  else mret (mkLoopState currentStreamChunk totalRows (chunkNumber st)).

(** "Send any remaining rows as final chunk" *)
Definition finalChunk (st : LoopState) : M LoopState :=
  if (0 <? length (currentStreamChunk st))%nat then
    let chunkNumber := S (chunkNumber st) in
    _ ← yield (JSON_stringify
                 (data_chunk (currentStreamChunk st) chunkNumber
                             (length (currentStreamChunk st)) (totalRows st)));
    _ ← sleep 1000;
    mret (mkLoopState (currentStreamChunk st) (totalRows st) chunkNumber)
  else mret st.

(** [executeStreamingTool], with its two constants as parameters. *)
Definition executeStreamingToolWith (streamChunkSize dbChunkSize : nat)
    (input : DbQueryToolInput) : M unit :=
  try_catch
    (_ ← validateInput input;
     let sql := applyLimit input in
     schemaResult ← invoke (CallExecuteQuery schemaProbe)
                           (executeQuery dbManager schemaProbe);
     let columns := columns schemaResult in
     let startTime := startTime clock in
     _ ← yield (JSON_stringify (query_start sql columns (startTimestamp clock)));
     _ ← sleep 1000;
     st ← forAwait (CallExecuteStreamingQuery sql dbChunkSize)
            (executeStreamingQuery dbManager sql dbChunkSize)
            (fun st dbChunk => foldM (onRow streamChunkSize) dbChunk st)
            (mkLoopState [] 0 0);
     st ← finalChunk st;
     let executionTime := endTime clock - startTime in
     yield (JSON_stringify
              (query_complete (totalRows st) (chunkNumber st) executionTime true)))
    (fun error =>
       yield (JSON_stringify
                (query_error true (messageOr "Unknown error" error)
                             (errorTimestamp clock)))).

(** [const streamChunkSize = 5; const dbChunkSize = 50;] *)
Definition executeStreamingTool : DbQueryToolInput -> M unit :=
  executeStreamingToolWith 5 50.

(** [{ sql, ...(input.limit && { limit: input.limit }) }] *)
Definition innerInput (sql : string) (input : DbQueryToolInput) : DbQueryToolInput :=
  mkInput sql (match limit input with
               | Some n => if n =? 0 then None else Some n
               | None => None
               end).

Definition execute (input : DbQueryToolInput) : M (Json ExecuteOutput) :=
  try_catch
    (_ ← validateInput input;
     let sql := applyLimit input in
     events ← collect (executeStreamingTool (innerInput sql input));
     mret (JSON_stringify
             (ExecuteSuccess true true 5 (JSON_parse <$> events)
                (resultTimestamp clock)
                "Events generated one-by-one via async generator")))
    (fun error =>
       mret (JSON_stringify
               (ExecuteFailure true (messageOr "Unknown error occurred" error) [] 0))).
End DbQueryTool.

(** [{ type: 'text', text: JSON.stringify(row) }] *)
Definition entryOf (row : Row) : ContentEntry :=
  mkContentEntry "text" (JSON_stringify row).

(** The run gets as far as the query_start event: the query is present and
    accepted, and the schema probe returns. *)
Definition reachesStart (dbManager : DatabaseManager) (input : DbQueryToolInput) : bool :=
  negb (String.eqb (sql input) "") &&
  validateQuery dbManager (sql input) &&
  match executeQuery dbManager schemaProbe with
  | inr _ => true
  | inl _ => false
  end.

(** ** Reading an event sequence *)

Definition parseAll (evs : list (Json Event)) : list Event := JSON_parse <$> evs.

(** The [chunk] arrays of the data_chunk events, in order. *)
Fixpoint dataChunks (evs : list Event) : list (list Row) :=
  match evs with
  | [] => []
  | data_chunk chunk _ _ _ :: r => chunk :: dataChunks r
  | _ :: r => dataChunks r
  end.

Fixpoint chunkNumbers (evs : list Event) : list nat :=
  match evs with
  | [] => []
  | data_chunk _ n _ _ :: r => n :: chunkNumbers r
  | _ :: r => chunkNumbers r
  end.

Fixpoint rowsInChunks (evs : list Event) : list nat :=
  match evs with
  | [] => []
  | data_chunk _ _ n _ :: r => n :: rowsInChunks r
  | _ :: r => rowsInChunks r
  end.

Fixpoint totalsSoFar (evs : list Event) : list nat :=
  match evs with
  | [] => []
  | data_chunk _ _ _ n :: r => n :: totalsSoFar r
  | _ :: r => totalsSoFar r
  end.

Definition isQueryStart (e : Event) : bool :=
  match e with query_start _ _ _ => true | _ => false end.

Definition isDataChunk (e : Event) : bool :=
  match e with data_chunk _ _ _ _ => true | _ => false end.

Definition isTerminal (e : Event) : bool :=
  match e with
  | query_complete _ _ _ _ | query_error _ _ _ => true
  | _ => false
  end.

Definition sumList (l : list nat) : nat := foldr Nat.add 0%nat l.

(** The events a list of chunks gives rise to, after [n] chunks holding [t]
    rows in all. *)
Fixpoint chunkEvents (n t : nat) (chunks : list (list Row)) : list Event :=
  match chunks with
  | [] => []
  | c :: r =>
      data_chunk c (S n) (length c) (t + length c)
        :: chunkEvents (S n) (t + length c) r
  end.

(** [rows] cut into the full chunks [cs], each of [C] rows, and the rest [b]
    of fewer than [C] rows. *)
Definition splitsInto (C : nat) (rows : list Row) (cs : list (list Row)) (b : list Row)
    : Prop :=
  Forall (fun c => length c = C) cs /\ (length b < C)%nat /\ rows = concat cs ++ b.

(** The rest of the rows as a last chunk, when there is a rest. *)
Definition lastChunk (b : list Row) : list (list Row) :=
  match b with
  | [] => []
  | _ => [b]
  end.

(** An event sequence is framed when it starts with its only query_start and
    ends with its only terminal event. *)
Definition framed (evs : list Event) : Prop :=
  exists first middle last,
    evs = first :: middle ++ [last] /\
    isQueryStart first = true /\
    forallb isDataChunk middle = true /\
    isTerminal last = true.

(* ===================================================================== *)
(** * 7. [src/server.ts]: the session map                                 *)
(* ===================================================================== *)

Module Server.

(** [interface SessionInfo]; the MCP server and its transport are opaque
    handles, the two dates are time values. *)
Record SessionInfo : Type := mkSessionInfo {
  server : nat;
  transport : nat;
  createdAt : Z;
  lastAccessed : Z
}.

(** What the DELETE handler sends: the HTTP status and the JSON body. *)
Record Response : Type := mkResponse {
  status : Z;
  success : bool;
  message : string
}.

(** [this.app.delete('/mcp/:sessionId', ...)]: the session map after the
    request, and the response. *)
Definition deleteSession (sessions : gmap string SessionInfo) (sessionId : string)
    : gmap string SessionInfo * Response :=
  if bool_decide (is_Some (sessions !! sessionId)) then
    (delete sessionId sessions,
     mkResponse 200 true ("Session " +:+ sessionId +:+ " terminated successfully"))
  else
    (sessions,
     mkResponse 404 false ("Session " +:+ sessionId +:+ " not found")).

(** [cleanupExpiredSessions], run by the interval timer at time [now]. *)
Definition cleanupExpiredSessions (sessionTTL now : Z)
    (sessions : gmap string SessionInfo) : gmap string SessionInfo :=
  let expiredSessions :=
    (map_to_list sessions) ≫= (fun '(sessionId, session) =>
       if now - lastAccessed session >? sessionTTL then [sessionId] else []) in
  foldl (fun m sessionId => delete sessionId m) sessions expiredSessions.

End Server.

(* ===================================================================== *)
(** * 8. Sample data                                                      *)
(* ===================================================================== *)

Definition sampleColumns : list string :=
  ["employeeId"; "employeeName"; "location"; "startDate"; "department";
   "salary"; "position"; "isRemote"; "lastPromoted"].

(** A raw row of the [employees] table as DuckDB returns it. *)
Definition sampleRawRow (i : nat) : JsVal :=
  JObject [("employeeId", JNumber (Z.of_nat i));
           ("employeeName", JString "Ada");
           ("location", JString "London");
           ("startDate", JObject [("days", JNumber (18000 + Z.of_nat i))]);
           ("department", JString "Engineering");
           ("salary", JBigInt (90000 + Z.of_nat i));
           ("position", JString "Engineer");
           ("isRemote", JBool true);
           ("lastPromoted", JNull)].

(** A store that answers the schema probe with no rows and every other
    query with the same 12 rows, except for one query that it rejects. *)
Definition sampleConnection : Db.Connection :=
  Db.mkConnection (fun sql =>
    if String.eqb sql schemaProbe then inr (Db.mkReader [] sampleColumns)
    else if String.eqb sql "SELECT nothing"
    then inl (JsError "Binder Error: column nothing not found")
    else inr (Db.mkReader (sampleRawRow <$> seq 1 12) sampleColumns)).

Definition sampleDb : DatabaseManager :=
  Db.manager tzUTC (0, 3) (Db.mkState (Some sampleConnection) true).

Definition sampleClock : Clock :=
  mkClock "2025-01-01T00:00:00.000Z" 1000 7000
          "2025-01-01T00:00:01.000Z" "2025-01-01T00:00:07.000Z".

Definition sampleInput : DbQueryToolInput :=
  mkInput "SELECT employeeName, salary FROM employees" (Some 12).

(** What [streamExecute] returns on the sample store. *)
Definition sampleStreamResult : StreamResult :=
  match result (streamExecute sampleDb sampleClock sampleInput) with
  | inr out => out
  | inl _ => mkStreamResult [] (mkStreamMeta 0 false "")
  end.

(** A manager whose row source throws after it has produced 12 rows. *)
Definition failingDb : DatabaseManager :=
  mkDatabaseManager Db.validateQuery
    (fun _ => inr (mkQueryResponse [] sampleColumns 0 0))
    (fun _ _ => mkGenRun [JNumber <$> [1; 2; 3; 4; 5; 6; 7];
                          JNumber <$> [8; 9; 10; 11; 12]]
                         (Some (JsError "IO Error: connection lost"))).

Definition sampleSessions : gmap string Server.SessionInfo :=
  <["s-1" := Server.mkSessionInfo 1 1 1000 2000]>
    (<["s-2" := Server.mkSessionInfo 2 2 1500 900000]> ∅).

(* ===================================================================== *)
(** * 8a. More of [src/database/db.ts]                                    *)
(* ===================================================================== *)

(** No BigInt is left anywhere in a value. *)
Fixpoint noBigInt (v : JsVal) : bool :=
  match v with
  | JBigInt _ => false
  | JArray items => forallb noBigInt items
  | JObject props => forallb (fun kv => noBigInt (snd kv)) props
  | _ => true
  end.

(** The number of days of month [m] (0 = January) of year [y]. *)
Definition DaysInMonth (y m : Z) : Z :=
  DaysBeforeMonth (InLeapYear y) (m + 1) - DaysBeforeMonth (InLeapYear y) m.

Module DbAdmin.

(** What [initialize] and [close] meet outside the class: the file system,
    DuckDB, and [path.resolve]. *)
Record World : Type := mkWorld {
  access : string -> Result unit;      (* [fs.access(csvFilePath)] *)
  create : Result unit;                (* [DuckDBInstance.create()] *)
  connect : Result Db.Connection;      (* [instance.connect()] *)
  run : string -> Result unit;         (* [connection.run(sql)] *)
  resolve : string -> string;          (* [path.resolve(csvFilePath)] *)
  closeSync : Result unit              (* [connection.closeSync()] *)
}.

(** The three private fields; [instance] is only ever tested against null. *)
Record Fields : Type := mkFields {
  instance : bool;
  connection : option Db.Connection;
  initialized : bool
}.

(** The two fields that the query methods read. *)
Definition state (this : Fields) : Db.State :=
  Db.mkState (connection this) (initialized this).

Definition createTableSql : string := "
      CREATE TABLE employees (
        employeeId INTEGER,
        employeeName VARCHAR,
        location VARCHAR,
        startDate DATE,
        department VARCHAR,
        salary BIGINT,
        position VARCHAR,
        isRemote BOOLEAN,
        lastPromoted DATE
      )
    ".

Definition copySql (absolutePath : string) : string :=
  "
      COPY employees FROM '" +:+ absolutePath +:+ "' (FORMAT CSV, HEADER TRUE)
    ".

Definition createEmployeesTable (w : World) (this : Fields) (csvFilePath : string)
    : Result unit :=
  match connection this with
  | None => inl (JsError "Database connection not established")
  | Some _ =>
      match run w createTableSql with
      | inl e => inl e
      | inr _ =>
          let absolutePath := resolve w csvFilePath in
          run w (copySql absolutePath)
      end
  end.

(** [initialize]: the fields afterwards, and whether it threw.  An error is
    logged and thrown again; the fields assigned before it stay assigned. *)
Definition initialize (w : World) (this : Fields) (csvFilePath : string)
    : Fields * Result unit :=
  if initialized this then (this, inr tt)
  else
    match access w csvFilePath with
    | inl error => (this, inl error)
    | inr _ =>
        match create w with
        | inl error => (this, inl error)
        | inr _ =>
            let this := mkFields true (connection this) (initialized this) in
            match connect w with
            | inl error => (this, inl error)
            | inr c =>
                let this := mkFields (instance this) (Some c) (initialized this) in
                match createEmployeesTable w this csvFilePath with
                | inl error => (this, inl error)
                | inr _ => (mkFields (instance this) (connection this) true, inr tt)
                end
            end
        end
    end.

(** [close]: an error of [closeSync] is logged and swallowed, and ends the
    method before any field is reset. *)
Definition close (w : World) (this : Fields) : Fields :=
  match connection this with
  | Some _ =>
      match closeSync w with
      | inl _ => this
      | inr _ => mkFields false None false
      end
  | None => mkFields false None false
  end.

Section Queries.
Variable LocalTZA : TimeZone.
Variable now1 now2 : Z * Z.   (* the clock readings of the two [executeQuery] calls *)

(** One entry of the fallback answer of [getTableSchema]. *)
Definition columnEntry (index : nat) (col : string) : JsVal :=
  JObject [("column_name", JString col);
           ("ordinal_position", JNumber (Z.of_nat index + 1));
           ("data_type", JString "unknown")].

Definition getTableSchema (this : Db.State) (tableName : string) : Result (list JsVal) :=
  let sql := "SELECT column_name, data_type FROM information_schema.columns WHERE table_name = '"
             +:+ tableName +:+ "'" in
  match Db.executeQuery LocalTZA now1 this sql with
  | inr result => inr (data result)
  | inl _ =>
      let fallbackSql := "SELECT * FROM " +:+ tableName +:+ " LIMIT 0" in
      match Db.executeQuery LocalTZA now2 this fallbackSql with
      | inl e => inl e
      | inr result => inr (imap columnEntry (columns result))
      end
  end.

Definition getSampleEmployees (this : Db.State) (limit : Z) : Result (list Row) :=
  let sql := "SELECT * FROM employees LIMIT " +:+ numberToString limit in
  match Db.executeQuery LocalTZA now1 this sql with
  | inl e => inl e
  | inr result => inr (data result)
  end.
End Queries.

End DbAdmin.

(* ===================================================================== *)
(** * 8b. More of [src/tools/dbQueryTool.ts] and [src/server.ts]          *)
(* ===================================================================== *)

Definition getSampleQueries : list string :=
  ["SELECT * FROM employees LIMIT 10";
   "SELECT location, COUNT(*) as employee_count FROM employees GROUP BY location ORDER BY employee_count DESC";
   "SELECT * FROM employees WHERE location = 'New York'";
   "SELECT employeeName, location, startDate FROM employees WHERE startDate >= '2020-01-01' ORDER BY startDate DESC";
   "SELECT location, AVG(EXTRACT(YEAR FROM startDate)) as avg_start_year FROM employees GROUP BY location";
   "SELECT COUNT(*) as total_employees FROM employees";
   "SELECT * FROM employees WHERE employeeName LIKE '%John%'";
   "SELECT EXTRACT(YEAR FROM startDate) as start_year, COUNT(*) as hires FROM employees GROUP BY start_year ORDER BY start_year"].

(** The object [getSchema] serialises. *)
Record SchemaResponse : Type := mkSchemaResponse {
  table : string;
  schema : list JsVal;
  sampleData : list Row;
  sampleQueries : list string
}.

(** [getSchema], given the outcomes of the two manager methods it calls. *)
Definition getSchema (getTableSchema : Result (list JsVal))
    (getSampleEmployees : Z -> Result (list Row)) : Result (Json SchemaResponse) :=
  let body :=
    match getTableSchema with
    | inl e => inl e
    | inr schema =>
        match getSampleEmployees 5 with
        | inl e => inl e
        | inr sampleData =>
            inr (JSON_stringify
                   (mkSchemaResponse "employees" schema sampleData getSampleQueries))
        end
    end in
  match body with
  | inl error =>
      inl (JsError ("Failed to get schema: " +:+ messageOr "Unknown error" error))
  | inr response => inr response
  end.

Module Handlers.

(** One entry of the [content] of an error answer. *)
Record TextContent : Type := mkTextContent {
  type : string;
  text : string
}.

(** What the CallTool handler returns. *)
Inductive CallToolResult : Type :=
| ToolResult (result : StreamResult)
| ToolError (content : list TextContent) (isError : bool).

(** The CallTool handler installed by [attachHandlers]; [args] is [None]
    when the request carries no arguments. *)
Definition callTool (dbManager : DatabaseManager) (clock : Clock)
    (name : string) (args : option DbQueryToolInput) : M CallToolResult :=
  if String.eqb name "dbQueryTool" then
    try_catch
      (match args with
       | None => throw (JsError "Arguments are required for dbQueryTool")
       | Some args =>
           result ← streamExecute dbManager clock args;
           mret (ToolResult result)
       end)
      (fun error =>
         mret (ToolError [mkTextContent "text" (messageOr "Unknown error occurred" error)]
                         true))
  else throw (JsError ("Unknown tool: " +:+ name)).

(** What one POST to [/mcp] meets outside the session map. *)
Record PostWorld : Type := mkPostWorld {
  randomUUID : string;                         (* [crypto.randomUUID()] *)
  now : Z;                                     (* [new Date()] *)
  newServer : nat;                             (* [new Server(...)] *)
  newTransport : nat;                          (* [new StreamableHTTPServerTransport(...)] *)
  connect : Result unit;                       (* [server.connect(transport)] *)
  handleRequest : nat -> Result unit;          (* [transport.handleRequest(req, res)] *)
  headersSent : bool                           (* [res.headersSent] in the catch *)
}.

(** How the request ended: relayed by the session's transport, answered with
    the 500 body, or left as the transport left it. *)
Inductive PostResponse : Type :=
| Relayed (sessionId : string) (transport : nat)
| InternalError (status code : Z) (message data : string)
| Unanswered.

Definition internalError (w : PostWorld) (error : Thrown) : PostResponse :=
  if headersSent w then Unanswered
  else InternalError 500 (-32603) "Internal error" (messageOr "Unknown error" error).

(** [this.app.post('/mcp', ...)]; [header] is the [mcp-session-id] header. *)
Definition postMcp (w : PostWorld) (sessions : gmap string Server.SessionInfo)
    (header : option string) : gmap string Server.SessionInfo * PostResponse :=
  let sessionId :=
    match header with
    | Some (String c s) => String c s
    | _ => randomUUID w
    end in
  let now := now w in
  match sessions !! sessionId with
  | None =>
      match connect w with
      | inl error => (sessions, internalError w error)
      | inr _ =>
          let session := Server.mkSessionInfo (newServer w) (newTransport w) now now in
          let sessions := <[sessionId := session]> sessions in
          match handleRequest w (Server.transport session) with
          | inl error => (sessions, internalError w error)
          | inr _ => (sessions, Relayed sessionId (Server.transport session))
          end
      end
  | Some session =>
      let session := Server.mkSessionInfo (Server.server session) (Server.transport session)
                                          (Server.createdAt session) now in
      let sessions := <[sessionId := session]> sessions in
      match handleRequest w (Server.transport session) with
      | inl error => (sessions, internalError w error)
      | inr _ => (sessions, Relayed sessionId (Server.transport session))
      end
  end.

End Handlers.

(* ===================================================================== *)
(** * 8c. More sample data                                                *)
(* ===================================================================== *)

Definition sampleState : Db.State := Db.mkState (Some sampleConnection) true.

(** A world in which the CSV file is there and DuckDB works. *)
Definition sampleWorld : DbAdmin.World :=
  DbAdmin.mkWorld (fun _ => inr tt) (inr tt) (inr sampleConnection)
                  (fun _ => inr tt) (fun p => "/srv/" +:+ p) (inr tt).

(** A world in which loading the CSV file fails. *)
Definition brokenWorld : DbAdmin.World :=
  DbAdmin.mkWorld (fun _ => inr tt) (inr tt) (inr sampleConnection)
                  (fun sql => if String.eqb sql DbAdmin.createTableSql then inr tt
                              else inl (JsError "IO Error: cannot open file"))
                  (fun p => "/srv/" +:+ p) (inr tt).

Definition samplePostWorld : Handlers.PostWorld :=
  Handlers.mkPostWorld "uuid-7" 5000 7 7 (inr tt) (fun _ => inr tt) false.

(** The two inner loops of [convertBigIntsToNumbers], by themselves. *)
Fixpoint convertItems (LocalTZA : TimeZone) (l : list JsVal) : Result (list JsVal) :=
  match l with
  | [] => inr []
  | item :: r =>
      match Db.convertBigIntsToNumbers LocalTZA item with
      | inl e => inl e
      | inr v => match convertItems LocalTZA r with
                 | inl e => inl e
                 | inr vs => inr (v :: vs)
                 end
      end
  end.

Definition convertEntry (LocalTZA : TimeZone) (value : JsVal) : Result JsVal :=
  match Db.duckDBDateDays value with
  | Some days =>
      match Db.convertDate LocalTZA days with
      | inl e => inl e
      | inr s => inr (JString s)
      end
  | None => Db.convertBigIntsToNumbers LocalTZA value
  end.

Fixpoint convertProps (LocalTZA : TimeZone) (l : list (string * JsVal))
    : Result (list (string * JsVal)) :=
  match l with
  | [] => inr []
  | (key, value) :: r =>
      match convertEntry LocalTZA value with
      | inl e => inl e
      | inr v => match convertProps LocalTZA r with
                 | inl e => inl e
                 | inr converted => inr ((key, v) :: converted)
                 end
      end
  end.

(* ===================================================================== *)
(** * 9. Lemmas on strings                                                *)
(* ===================================================================== *)

Lemma append_nil (s : string) : "" +:+ s = s.
Proof. reflexivity. Qed.

Lemma append_cons (c : ascii) (a b : string) : String c a +:+ b = String c (a +:+ b).
Proof. reflexivity. Qed.

Ltac unfold_append := rewrite ?append_cons, ?append_nil in *.

Lemma isWhiteSpace_toLowerChar (c : ascii) :
  isWhiteSpace (toLowerChar c) = isWhiteSpace c.
Proof. destruct c as [[] [] [] [] [] [] [] []]; reflexivity. Qed.

Lemma toLowerCase_app (a b : string) :
  toLowerCase (a +:+ b) = toLowerCase a +:+ toLowerCase b.
Proof. induction a as [|c a IH]; unfold_append; simpl; [reflexivity | now rewrite IH]. Qed.

Lemma toLowerCase_trimStart (s : string) :
  toLowerCase (trimStart s) = trimStart (toLowerCase s).
Proof.
  induction s as [|c s IH]; simpl; [reflexivity|].
  rewrite isWhiteSpace_toLowerChar. destruct (isWhiteSpace c); [exact IH | reflexivity].
Qed.

Lemma toLowerCase_trimEnd (s : string) :
  toLowerCase (trimEnd s) = trimEnd (toLowerCase s).
Proof.
  induction s as [|c s IH]; simpl; [reflexivity|].
  rewrite <- IH, isWhiteSpace_toLowerChar.
  destruct (trimEnd s) as [|d r]; simpl.
  - destruct (isWhiteSpace c); reflexivity.
  - reflexivity.
Qed.

Lemma toLowerCase_trim (s : string) : toLowerCase (trim s) = trim (toLowerCase s).
Proof. unfold trim. now rewrite toLowerCase_trimEnd, toLowerCase_trimStart. Qed.

Lemma trimStart_headIsBlack (s : string) : headIsBlack (trimStart s).
Proof.
  induction s as [|c s IH]; simpl; [exact I|].
  destruct (isWhiteSpace c) eqn:E; [exact IH | exact E].
Qed.

Lemma trimStart_fixed (s : string) : headIsBlack s -> trimStart s = s.
Proof. destruct s as [|c s]; simpl; [reflexivity | now intros ->]. Qed.

Lemma trimEnd_headIsBlack (s : string) : headIsBlack s -> headIsBlack (trimEnd s).
Proof.
  destruct s as [|c s]; simpl; [exact id|]. intros E.
  destruct (trimEnd s); [rewrite E|]; exact E.
Qed.

Lemma trimEnd_idem (s : string) : trimEnd (trimEnd s) = trimEnd s.
Proof.
  induction s as [|c s IH]; simpl; [reflexivity|].
  destruct (trimEnd s) as [|d r] eqn:E.
  - destruct (isWhiteSpace c) eqn:W; simpl; [reflexivity | now rewrite W].
  - simpl in *. now rewrite IH.
Qed.

Lemma trim_headIsBlack (s : string) : headIsBlack (trim s).
Proof. apply trimEnd_headIsBlack, trimStart_headIsBlack. Qed.

Lemma trim_idem (s : string) : trim (trim s) = trim s.
Proof.
  unfold trim at 1. rewrite (trimStart_fixed _ (trim_headIsBlack s)).
  apply trimEnd_idem.
Qed.

Lemma trimEnd_app (a b : string) :
  trimEnd b <> "" -> trimEnd (a +:+ b) = a +:+ trimEnd b.
Proof.
  intros Hb. induction a as [|c a IH]; [reflexivity|].
  rewrite !append_cons. simpl. rewrite IH.
  destruct (a +:+ trimEnd b) eqn:E; [|reflexivity].
  destruct a; unfold_append; [contradiction | discriminate].
Qed.

Lemma trim_app (a b : string) :
  a <> "" -> headIsBlack a -> trimEnd b = b -> b <> "" -> trim (a +:+ b) = a +:+ b.
Proof.
  intros Ha Hh Hb Hn. unfold trim.
  rewrite trimStart_fixed.
  - rewrite trimEnd_app; rewrite Hb; [reflexivity | exact Hn].
  - destruct a; [contradiction | exact Hh].
Qed.

Lemma startsWith_app (a b p : string) :
  startsWith a p = true -> startsWith (a +:+ b) p = true.
Proof.
  revert a. induction p as [|x p IH]; intros [|y a]; unfold_append; simpl; try easy.
  destruct (Ascii.eqb x y); [apply IH | easy].
Qed.

Lemma startsWith_app_sep (c : ascii) (a b k : string) :
  occurs c k = false ->
  startsWith (a +:+ String c b) k = startsWith a k.
Proof.
  revert k. induction a as [|y a IH]; intros [|x k]; unfold_append; simpl;
    try reflexivity.
  - intros H. apply orb_false_elim in H as [H _].
    rewrite Ascii.eqb_sym in H. now rewrite H.
  - intros H. apply orb_false_elim in H as [_ H].
    destruct (Ascii.eqb x y); [now apply IH | reflexivity].
Qed.

Lemma includes_empty (s : string) : includes s "" = true.
Proof. destruct s; reflexivity. Qed.

Lemma includes_cons (y : ascii) (s k : string) :
  includes (String y s) k = startsWith (String y s) k || includes s k.
Proof. reflexivity. Qed.

Lemma includes_app_sep (c : ascii) (a b k : string) :
  occurs c k = false ->
  includes (a +:+ String c b) k = includes a k || includes (String c b) k.
Proof.
  intros H. induction a as [|y a IH].
  - destruct k; [now rewrite includes_empty | reflexivity].
  - rewrite append_cons, !includes_cons, <- append_cons.
    rewrite startsWith_app_sep, IH by exact H.
    now rewrite orb_assoc.
Qed.

Lemma includes_no_head (h : ascii) (k s : string) :
  occurs h s = false -> includes s (String h k) = false.
Proof.
  induction s as [|d s IH]; simpl; [reflexivity|].
  intros H. apply orb_false_elim in H as [H1 H2].
  rewrite H1. simpl. now apply IH.
Qed.

Lemma includes_app_l (a b k : string) :
  includes a k = true -> includes (a +:+ b) k = true.
Proof.
  induction a as [|y a IH].
  - simpl. rewrite orb_false_r.
    destruct k; [intros _; apply includes_empty | discriminate].
  - rewrite append_cons, !includes_cons, <- append_cons.
    intros H. apply orb_true_iff in H as [H | H].
    + now rewrite (startsWith_app _ b _ H).
    + rewrite (IH H). apply orb_true_r.
Qed.

Lemma includes_app_r (a b k : string) :
  includes b k = true -> includes (a +:+ b) k = true.
Proof.
  intros H. induction a as [|y a IH]; [exact H|].
  rewrite append_cons, includes_cons, IH. apply orb_true_r.
Qed.

Lemma occurs_app (c : ascii) (a b : string) :
  occurs c (a +:+ b) = occurs c a || occurs c b.
Proof.
  induction a as [|d a IH]; unfold_append; simpl; [reflexivity | now rewrite IH, orb_assoc].
Qed.

Lemma string_of_uint_chars (c : ascii) (d : Decimal.uint) :
  occurs c (NilEmpty.string_of_uint d) = true -> isNumberChar c = true.
Proof.
  induction d; simpl; try discriminate;
    intros H; apply orb_true_iff in H as [H | H]; auto;
    apply Ascii.eqb_eq in H; subst; reflexivity.
Qed.

Lemma nilzero_uint_chars (c : ascii) (d : Decimal.uint) :
  occurs c (NilZero.string_of_uint d) = true -> isNumberChar c = true.
Proof.
  destruct d; try apply (string_of_uint_chars c).
  simpl. rewrite orb_false_r. intros H. apply Ascii.eqb_eq in H. now subst.
Qed.

Lemma numberToString_chars (c : ascii) (n : Z) :
  occurs c (numberToString n) = true -> isNumberChar c = true.
Proof.
  unfold numberToString, NilZero.string_of_int.
  destruct (Z.to_int n) as [d | d].
  - apply nilzero_uint_chars.
  - simpl. intros H. apply orb_true_iff in H as [H | H].
    + apply Ascii.eqb_eq in H. now subst.
    + now apply nilzero_uint_chars in H.
Qed.

Lemma numberToString_nonempty (n : Z) : numberToString n <> "".
Proof.
  unfold numberToString, NilZero.string_of_int.
  destruct (Z.to_int n) as [d | d]; [|discriminate].
  destruct d; discriminate.
Qed.

Lemma trimEnd_black (s : string) :
  (forall c, occurs c s = true -> isWhiteSpace c = false) -> trimEnd s = s.
Proof.
  induction s as [|d s IH]; simpl; [reflexivity|]. intros H.
  rewrite IH.
  - destruct s; [|reflexivity]. rewrite (H d); [reflexivity|].
    now rewrite Ascii.eqb_refl.
  - intros c Hc. apply H. rewrite Hc. apply orb_true_r.
Qed.

Lemma toLowerCase_fixed (s : string) :
  (forall c, occurs c s = true -> toLowerChar c = c) -> toLowerCase s = s.
Proof.
  induction s as [|d s IH]; simpl; [reflexivity|]. intros H.
  rewrite IH, (H d); [reflexivity | now rewrite Ascii.eqb_refl |].
  intros c Hc. apply H. rewrite Hc. apply orb_true_r.
Qed.

Lemma isNumberChar_plain (c : ascii) :
  isNumberChar c = true -> isWhiteSpace c = false /\ toLowerChar c = c.
Proof. destruct c as [[] [] [] [] [] [] [] []]; try discriminate; now split. Qed.

(* ===================================================================== *)
(** * 10. Lemmas on the effect monad and on loops                         *)
(* ===================================================================== *)

Lemma M_eta {A : Type} (m : M A) : mkM (calls m) (events m) (result m) = m.
Proof. now destruct m. Qed.

Lemma bind_returned {A B : Type} (f : A -> M B) c ev (a : A) :
  mkM c ev (inr a) ≫= f =
  mkM (c ++ calls (f a)) (ev ++ events (f a)) (result (f a)).
Proof. reflexivity. Qed.

Lemma bind_thrown {A B : Type} (f : A -> M B) c ev (e : Thrown) :
  mkM c ev (inl e) ≫= f = mkM c ev (inl e).
Proof. reflexivity. Qed.

Lemma bind_mret_l {A B : Type} (f : A -> M B) (a : A) : mret a ≫= f = f a.
Proof. unfold mret, M_ret. rewrite bind_returned. apply M_eta. Qed.

Lemma foldM_cons {A S : Type} (body : S -> A -> M S) (x : A) (l : list A) (st : S) :
  foldM body (x :: l) st = body st x ≫= foldM body l.
Proof. reflexivity. Qed.

Lemma foldM_app {A S : Type} (body : S -> A -> M S) (l1 l2 : list A) (st : S) :
  foldM body (l1 ++ l2) st = foldM body l1 st ≫= foldM body l2.
Proof.
  revert st. induction l1 as [|x l1 IH]; intros st.
  - symmetry. apply bind_mret_l.
  - rewrite <- app_comm_cons, !foldM_cons.
    destruct (body st x) as [c ev [e | a]]; [reflexivity|].
    rewrite !bind_returned, IH.
    destruct (foldM body l1 a) as [c' ev' [e | a']]; simpl; [reflexivity|].
    rewrite !bind_returned. simpl. now rewrite !app_assoc.
Qed.

Lemma foldM_concat {A S : Type} (body : S -> A -> M S) (ls : list (list A)) (st : S) :
  foldM (fun st l => foldM body l st) ls st = foldM body (concat ls) st.
Proof.
  revert st. induction ls as [|l ls IH]; intros st; [reflexivity|].
  rewrite foldM_cons. simpl concat. rewrite foldM_app.
  destruct (foldM body l st) as [c ev [e | a]]; [reflexivity|].
  rewrite !bind_returned. now rewrite IH.
Qed.

Lemma parseAll_stringify (evs : list Event) : parseAll (JSON_stringify <$> evs) = evs.
Proof.
  unfold parseAll. induction evs as [|e evs IH]; [reflexivity|].
  rewrite !fmap_cons, IH. reflexivity.
Qed.

(** ** The chunking loop *)

Lemma length_concat_uniform (C : nat) (cs : list (list Row)) :
  Forall (fun c => length c = C) cs -> length (concat cs) = (C * length cs)%nat.
Proof.
  induction 1 as [|c cs Hc _ IH]; simpl; [lia|].
  rewrite length_app, IH, Hc. lia.
Qed.

Lemma chunkEvents_app (n t : nat) (a b : list (list Row)) :
  chunkEvents n t (a ++ b) =
  chunkEvents n t a ++ chunkEvents (n + length a) (t + length (concat a)) b.
Proof.
  revert n t. induction a as [|c a IH]; intros n t; simpl.
  - now rewrite !Nat.add_0_r.
  - rewrite IH, length_app.
    replace (S n + length a)%nat with (n + S (length a))%nat by lia.
    replace (t + length c + length (concat a))%nat
      with (t + (length c + length (concat a)))%nat by lia.
    reflexivity.
Qed.

Section Chunking.
Variable C : nat.
Hypothesis C_pos : (0 < C)%nat.

Lemma onRow_emit (st : LoopState) (row : Row) :
  (C <= length (currentStreamChunk st ++ [row]))%nat ->
  onRow C st row =
    mkM [] [JSON_stringify
              (data_chunk (currentStreamChunk st ++ [row]) (S (chunkNumber st))
                          (length (currentStreamChunk st ++ [row]))
                          (S (totalRows st)))]
        (inr (mkLoopState [] (S (totalRows st)) (S (chunkNumber st)))).
Proof.
  intros H. apply Nat.leb_le in H. unfold onRow. rewrite H. reflexivity.
Qed.

Lemma onRow_keep (st : LoopState) (row : Row) :
  (length (currentStreamChunk st ++ [row]) < C)%nat ->
  onRow C st row =
    mkM [] [] (inr (mkLoopState (currentStreamChunk st ++ [row])
                                (S (totalRows st)) (chunkNumber st))).
Proof.
  intros H. apply Nat.leb_gt in H. unfold onRow. rewrite H. reflexivity.
Qed.

Lemma foldM_onRow (rows : list Row) : forall (st : LoopState) (e : nat),
  (length (currentStreamChunk st) < C)%nat ->
  totalRows st = (e + length (currentStreamChunk st))%nat ->
  exists (cs : list (list Row)) (b : list Row),
    foldM (onRow C) rows st =
      mkM [] (JSON_stringify <$> chunkEvents (chunkNumber st) e cs)
          (inr (mkLoopState b (totalRows st + length rows)
                            (chunkNumber st + length cs))) /\
    Forall (fun c => length c = C) cs /\
    currentStreamChunk st ++ rows = concat cs ++ b /\
    (length b < C)%nat.
Proof.
  induction rows as [|x rows IH]; intros [buf t n] e Hlen Ht; simpl in Hlen, Ht.
  - exists [], buf. simpl. rewrite !Nat.add_0_r, app_nil_r. repeat split; auto.
  - rewrite foldM_cons.
    destruct (le_lt_dec C (length (buf ++ [x]))) as [E | E].
    + rewrite onRow_emit by exact E. rewrite length_app in E. simpl in E.
      destruct (IH (mkLoopState [] (S t) (S n)) (S t))
        as (cs & b & Hrun & Hall & Hcat & Hb); [simpl; lia | simpl; lia |].
      exists ((buf ++ [x]) :: cs), b.
      rewrite bind_returned.
      cbn [currentStreamChunk totalRows chunkNumber]. rewrite Hrun.
      cbn [calls events result currentStreamChunk totalRows chunkNumber
           app chunkEvents concat length fmap list_fmap] in *.
      repeat split.
      * replace (e + length (buf ++ [x]))%nat with (S t)
          by (rewrite length_app; simpl; lia).
        replace (t + S (length rows))%nat with (S (t + length rows)) by lia.
        replace (n + S (length cs))%nat with (S (n + length cs)) by lia.
        reflexivity.
      * constructor; [rewrite length_app; simpl; lia | assumption].
      * rewrite Hcat at 1. rewrite <- !app_assoc. reflexivity.
      * assumption.
    + rewrite onRow_keep by exact E. rewrite length_app in E. simpl in E.
      destruct (IH (mkLoopState (buf ++ [x]) (S t) n) e)
        as (cs & b & Hrun & Hall & Hcat & Hb);
        [simpl; rewrite length_app; simpl; lia
        | simpl; rewrite length_app; simpl; lia |].
      exists cs, b.
      rewrite bind_returned.
      cbn [currentStreamChunk totalRows chunkNumber]. rewrite Hrun.
      cbn [calls events result currentStreamChunk totalRows chunkNumber
           app length] in *.
      repeat split; auto.
      * replace (t + S (length rows))%nat with (S (t + length rows)) by lia.
        reflexivity.
      * rewrite <- Hcat, <- app_assoc. reflexivity.
Qed.
End Chunking.

(* ===================================================================== *)
(** * 11. The runs of [executeStreamingTool]                              *)
(* ===================================================================== *)

Section Runs.
Variable db : DatabaseManager.
Variable clk : Clock.

Lemma validateInput_empty (input : DbQueryToolInput) :
  sql input = "" -> validateInput db input = throw (JsError requiredMessage).
Proof. unfold validateInput. now intros ->. Qed.

Lemma validateInput_invalid (input : DbQueryToolInput) :
  sql input <> "" -> validateQuery db (sql input) = false ->
  validateInput db input = throw (JsError invalidMessage).
Proof.
  unfold validateInput. intros Hne ->. destruct (sql input); [contradiction | reflexivity].
Qed.

Lemma validateInput_ok (input : DbQueryToolInput) :
  sql input <> "" -> validateQuery db (sql input) = true ->
  validateInput db input = mret tt.
Proof.
  unfold validateInput. intros Hne ->. destruct (sql input); [contradiction | reflexivity].
Qed.

Lemma validateInput_cases (input : DbQueryToolInput) :
  (sql input <> "" /\ validateQuery db (sql input) = true /\
   validateInput db input = mret tt) \/
  (exists m, validateInput db input = throw (JsError m)).
Proof.
  destruct (decide (sql input = "")) as [E | E].
  - right. eexists. now apply validateInput_empty.
  - destruct (validateQuery db (sql input)) eqn:V.
    + left. repeat split; auto. now apply validateInput_ok.
    + right. eexists. now apply validateInput_invalid.
Qed.

Section Chunked.
Variable C D : nat.
Hypothesis C_pos : (0 < C)%nat.

Lemma forAwait_onRow (c : DbCall) (g : GenRun (list Row)) :
  exists (cs : list (list Row)) (b : list Row),
    splitsInto C (concat (yielded g)) cs b /\
    forAwait c g (fun st dbChunk => foldM (onRow C) dbChunk st)
             (mkLoopState [] 0 0) =
      mkM [c] (JSON_stringify <$> chunkEvents 0 0 cs)
          (match failure g with
           | Some e => inl e
           | None => inr (mkLoopState b (length (concat (yielded g))) (length cs))
           end).
Proof.
  destruct (foldM_onRow C C_pos (concat (yielded g)) (mkLoopState [] 0 0) 0%nat)
    as (cs & b & Hrun & Hall & Hcat & Hb); [simpl; lia | reflexivity |].
  exists cs, b. split; [repeat split; assumption|].
  unfold forAwait, invoke. rewrite bind_returned, foldM_concat, Hrun, bind_returned.
  cbn [calls events result totalRows chunkNumber app].
  destruct (failure g); cbn [calls events result throw mret M_ret app];
    now rewrite !app_nil_r.
Qed.

Lemma finalChunk_run (cs : list (list Row)) (b : list Row) (R : nat) :
  R = (length (concat cs) + length b)%nat ->
  finalChunk (mkLoopState b R (length cs)) =
    mkM [] (JSON_stringify <$>
              chunkEvents (length cs) (length (concat cs)) (lastChunk b))
        (inr (mkLoopState b R (length (cs ++ lastChunk b)))).
Proof.
  intros ->. unfold finalChunk. destruct b as [|x b].
  - simpl. now rewrite !app_nil_r.
  - cbn [currentStreamChunk totalRows chunkNumber length Nat.ltb Nat.leb].
    unfold yield, sleep. rewrite !bind_returned.
    cbn [calls events result mret M_ret app lastChunk chunkEvents fmap list_fmap].
    rewrite !length_app. simpl length.
    replace (length cs + 1)%nat with (S (length cs)) by lia.
    reflexivity.
Qed.

(** The run that reaches the row source. *)
Lemma run_started (input : DbQueryToolInput) (resp : QueryResponse) :
  sql input <> "" ->
  validateQuery db (sql input) = true ->
  executeQuery db schemaProbe = inr resp ->
  let q := applyLimit input in
  let g := executeStreamingQuery db q D in
  exists (cs : list (list Row)) (b : list Row),
    splitsInto C (concat (yielded g)) cs b /\
    executeStreamingToolWith db clk C D input =
      mkM [CallExecuteQuery schemaProbe; CallExecuteStreamingQuery q D]
          (JSON_stringify <$>
             (query_start q (columns resp) (startTimestamp clk)
              :: match failure g with
                 | Some e =>
                     chunkEvents 0 0 cs ++
                     [query_error true (messageOr "Unknown error" e)
                                  (errorTimestamp clk)]
                 | None =>
                     chunkEvents 0 0 (cs ++ lastChunk b) ++
                     [query_complete (length (concat (yielded g)))
                                     (length (cs ++ lastChunk b))
                                     (endTime clk - startTime clk) true]
                 end))
          (inr tt).
Proof.
  intros Hne Hv Hp q g.
  destruct (forAwait_onRow (CallExecuteStreamingQuery q D) g)
    as (cs & b & Hsplit & Hrun).
  exists cs, b. split; [exact Hsplit|].
  unfold executeStreamingToolWith.
  rewrite validateInput_ok by assumption. rewrite bind_mret_l.
  fold q. fold g. rewrite Hp. unfold invoke, yield, sleep.
  rewrite !bind_returned. rewrite bind_mret_l. rewrite Hrun.
  destruct Hsplit as (Hall & Hb & Hcat).
  destruct (failure g) as [e|].
  - rewrite bind_thrown. unfold try_catch.
    cbn [calls events result app fmap list_fmap].
    rewrite fmap_app. reflexivity.
  - rewrite bind_returned.
    rewrite (finalChunk_run cs b (length (concat (yielded g))))
      by (rewrite Hcat, length_app; reflexivity).
    rewrite bind_returned. unfold try_catch.
    cbn [calls events result app fmap list_fmap totalRows chunkNumber].
    rewrite chunkEvents_app, !fmap_app, !Nat.add_0_l.
    cbn [fmap list_fmap app]. rewrite <- ?app_assoc, ?app_nil_r. reflexivity.
Qed.

(** The runs that end before the query_start event. *)
Lemma run_rejected (input : DbQueryToolInput) (m : string) :
  validateInput db input = throw (JsError m) ->
  executeStreamingToolWith db clk C D input =
    mkM [] [JSON_stringify (query_error true m (errorTimestamp clk))] (inr tt).
Proof.
  intros H. unfold executeStreamingToolWith. rewrite H. reflexivity.
Qed.

Lemma run_probe_failed (input : DbQueryToolInput) (e : Thrown) :
  sql input <> "" ->
  validateQuery db (sql input) = true ->
  executeQuery db schemaProbe = inl e ->
  executeStreamingToolWith db clk C D input =
    mkM [CallExecuteQuery schemaProbe]
        [JSON_stringify (query_error true (messageOr "Unknown error" e)
                                     (errorTimestamp clk))]
        (inr tt).
Proof.
  intros Hne Hv Hp. unfold executeStreamingToolWith.
  rewrite validateInput_ok by assumption. rewrite bind_mret_l, Hp.
  reflexivity.
Qed.
End Chunked.
End Runs.

(* ===================================================================== *)
(** * 12. Reading the events of a run                                     *)
(* ===================================================================== *)

Lemma dataChunks_app (a b : list Event) :
  dataChunks (a ++ b) = dataChunks a ++ dataChunks b.
Proof. induction a as [|[] a IH]; simpl; congruence. Qed.

Lemma chunkNumbers_app (a b : list Event) :
  chunkNumbers (a ++ b) = chunkNumbers a ++ chunkNumbers b.
Proof. induction a as [|[] a IH]; simpl; congruence. Qed.

Lemma rowsInChunks_app (a b : list Event) :
  rowsInChunks (a ++ b) = rowsInChunks a ++ rowsInChunks b.
Proof. induction a as [|[] a IH]; simpl; congruence. Qed.

Lemma totalsSoFar_app (a b : list Event) :
  totalsSoFar (a ++ b) = totalsSoFar a ++ totalsSoFar b.
Proof. induction a as [|[] a IH]; simpl; congruence. Qed.

Lemma dataChunks_chunkEvents (n t : nat) (cs : list (list Row)) :
  dataChunks (chunkEvents n t cs) = cs.
Proof. revert n t. induction cs as [|c cs IH]; intros; simpl; [|rewrite IH]; reflexivity. Qed.

Lemma chunkNumbers_chunkEvents (n t : nat) (cs : list (list Row)) :
  chunkNumbers (chunkEvents n t cs) = seq (S n) (length cs).
Proof. revert n t. induction cs as [|c cs IH]; intros; simpl; [|rewrite IH]; reflexivity. Qed.

Lemma rowsInChunks_chunkEvents (n t : nat) (cs : list (list Row)) :
  rowsInChunks (chunkEvents n t cs) = length <$> cs.
Proof. revert n t. induction cs as [|c cs IH]; intros; simpl; [|rewrite IH]; reflexivity. Qed.

Lemma totalsSoFar_chunkEvents (cs : list (list Row)) : forall (n t i x : nat),
  totalsSoFar (chunkEvents n t cs) !! i = Some x ->
  x = (t + sumList (take (S i) (length <$> cs)))%nat.
Proof.
  unfold sumList.
  induction cs as [|c cs IH]; intros n t i x H; [discriminate|].
  cbn [chunkEvents totalsSoFar] in H. destruct i as [|i].
  - injection H as <-. cbn. rewrite take_0. simpl. lia.
  - apply IH in H. subst x. cbn [fmap list_fmap take foldr]. lia.
Qed.

Lemma isDataChunk_chunkEvents (n t : nat) (cs : list (list Row)) :
  forallb isDataChunk (chunkEvents n t cs) = true.
Proof. revert n t. induction cs as [|c cs IH]; intros; simpl; [|rewrite IH]; reflexivity. Qed.

Lemma sumList_lengths (cs : list (list Row)) :
  sumList (length <$> cs) = length (concat cs).
Proof.
  induction cs as [|c cs IH]; [reflexivity|].
  rewrite fmap_cons. unfold sumList in *. cbn [foldr concat].
  rewrite length_app, IH. reflexivity.
Qed.

Lemma concat_lastChunk (cs : list (list Row)) (b : list Row) :
  concat (cs ++ lastChunk b) = concat cs ++ b.
Proof.
  rewrite concat_app. destruct b; simpl; [reflexivity | now rewrite app_nil_r].
Qed.

(** ** Counting the chunks *)

Lemma splitsInto_div (C : nat) (rows : list Row) cs b :
  splitsInto C rows cs b ->
  length cs = (length rows / C)%nat /\ length b = (length rows mod C)%nat.
Proof.
  intros (Hall & Hb & ->). rewrite length_app, (length_concat_uniform C cs Hall).
  split.
  - apply (Nat.div_unique _ _ _ (length b)); [exact Hb | reflexivity].
  - apply (Nat.mod_unique _ _ (length cs)); [exact Hb | reflexivity].
Qed.

Lemma splitsInto_ceil (C : nat) (rows : list Row) cs b :
  splitsInto C rows cs b ->
  length (cs ++ lastChunk b) = ((length rows + C - 1) / C)%nat.
Proof.
  intros (Hall & Hb & ->).
  rewrite !length_app, (length_concat_uniform C cs Hall).
  destruct b as [|x b]; simpl length.
  - apply (Nat.div_unique _ _ _ (C - 1)); lia.
  - simpl in Hb. apply (Nat.div_unique _ _ _ (length b)); lia.
Qed.

Lemma splitsInto_take (C : nat) (rows : list Row) cs b :
  splitsInto C rows cs b ->
  concat cs = take (C * (length rows / C)) rows.
Proof.
  intros H. destruct (splitsInto_div _ _ _ _ H) as [Hq _].
  destruct H as (Hall & Hb & ->). rewrite <- Hq.
  rewrite <- (length_concat_uniform C cs Hall). now rewrite take_app_length.
Qed.

(* ===================================================================== *)
(** * 13. The event protocol of [executeStreamingTool]                    *)
(* ===================================================================== *)

Lemma reachesStart_true (db : DatabaseManager) (input : DbQueryToolInput) :
  reachesStart db input = true ->
  sql input <> "" /\ validateQuery db (sql input) = true /\
  exists resp, executeQuery db schemaProbe = inr resp.
Proof.
  unfold reachesStart. intros H.
  apply andb_true_iff in H as [H Hp]. apply andb_true_iff in H as [Hs Hv].
  repeat split.
  - intros E. rewrite E in Hs. discriminate.
  - exact Hv.
  - destruct (executeQuery db schemaProbe) as [e | resp]; [discriminate | eauto].
Qed.

Lemma reachesStart_false (db : DatabaseManager) (input : DbQueryToolInput) :
  reachesStart db input = false ->
  (exists m, validateInput db input = throw (JsError m)) \/
  (sql input <> "" /\ validateQuery db (sql input) = true /\
   exists e, executeQuery db schemaProbe = inl e).
Proof.
  unfold reachesStart. intros H.
  destruct (validateInput_cases db input) as [(Hne & Hv & _) | Hr]; [|now left].
  right. repeat split; auto.
  rewrite Hv, andb_true_r in H.
  destruct (executeQuery db schemaProbe) as [e | resp]; [eauto|].
  rewrite andb_true_r in H. apply negb_false_iff, String.eqb_eq in H. contradiction.
Qed.

(** Every run has one of two shapes. *)
Lemma run_shape (db : DatabaseManager) (clk : Clock) (C D : nat)
    (input : DbQueryToolInput) :
  (0 < C)%nat ->
  let evs := parseAll (events (executeStreamingToolWith db clk C D input)) in
  if reachesStart db input then
    exists q cols chunks last,
      evs = query_start q cols (startTimestamp clk) :: chunkEvents 0 0 chunks ++ [last] /\
      ((exists m, last = query_error true m (errorTimestamp clk)) \/
       last = query_complete (length (concat chunks)) (length chunks)
                             (endTime clk - startTime clk) true)
  else exists m, evs = [query_error true m (errorTimestamp clk)].
Proof.
  intros HC evs. subst evs. destruct (reachesStart db input) eqn:R.
  - apply reachesStart_true in R as (Hne & Hv & resp & Hp).
    destruct (run_started db clk C D HC input resp Hne Hv Hp)
      as (cs & b & (Hall & Hb & Hcat) & ->).
    cbn [events]. rewrite parseAll_stringify.
    destruct (failure _) as [e|].
    + exists (applyLimit input), (columns resp), cs. eexists. split; [reflexivity|].
      left. eauto.
    + exists (applyLimit input), (columns resp), (cs ++ lastChunk b). eexists.
      split; [reflexivity|]. right. now rewrite concat_lastChunk, <- Hcat.
  - apply reachesStart_false in R as [[m Hm] | (Hne & Hv & e & Hp)].
    + rewrite (run_rejected db clk C D input m Hm). eauto.
    + rewrite (run_probe_failed db clk C D input e Hne Hv Hp). eauto.
Qed.

Lemma chunkEvents_not_terminal (n t : nat) (cs : list (list Row)) :
  forallb (fun e => negb (isTerminal e)) (chunkEvents n t cs) = true.
Proof. revert n t. induction cs as [|c cs IH]; intros; simpl; [|rewrite IH]; reflexivity. Qed.

Lemma terminal_is_last (l before after : list Event) (x y : Event) :
  forallb (fun e => negb (isTerminal e)) l = true ->
  isTerminal y = true ->
  l ++ [x] = before ++ y :: after ->
  before = l /\ y = x /\ after = [].
Proof.
  revert before. induction l as [|a l IH]; intros before Hl Hy E.
  - destruct before as [|b0 before]; simpl in E.
    + injection E as -> <-. auto.
    + injection E as _ E. destruct before; discriminate.
  - simpl in Hl. apply andb_true_iff in Hl as [Ha Hl].
    destruct before as [|b0 before]; simpl in E.
    + injection E as -> _. rewrite Hy in Ha. discriminate.
    + injection E as -> E. destruct (IH before Hl Hy E) as (-> & -> & ->). auto.
Qed.

Lemma sumList_take_mono (l : list nat) : forall n,
  (sumList (take n l) <= sumList (take (S n) l))%nat.
Proof.
  unfold sumList. induction l as [|a l IH]; intros n.
  - now rewrite !take_nil.
  - destruct n as [|n].
    + rewrite take_0. simpl. lia.
    + change (take (S (S n)) (a :: l)) with (a :: take (S n) l).
      change (take (S n) (a :: l)) with (a :: take n l).
      simpl. specialize (IH n). lia.
Qed.

(** C1.  When the row source delivers [R] rows, in whatever database chunks,
    and does not fail, the chunking loop run with a positive chunk size [C]
    emits [ceil(R/C)] data_chunk events; none of them is empty; all but the
    last hold exactly [C] rows; the last holds [R mod C] rows, or [C] when
    [C] divides [R]; and the chunks, one after the other, are exactly the
    rows in source order, so that every row is in exactly one chunk. *)
Theorem chunk_sequencing (db : DatabaseManager) (clk : Clock) (C D : nat)
    (input : DbQueryToolInput) (resp : QueryResponse) (dbChunks : list (list Row)) :
  (0 < C)%nat ->
  sql input <> "" ->
  validateQuery db (sql input) = true ->
  executeQuery db schemaProbe = inr resp ->
  executeStreamingQuery db (applyLimit input) D = mkGenRun dbChunks None ->
  let rows := concat dbChunks in
  let R := length rows in
  let chunks :=
    dataChunks (parseAll (events (executeStreamingToolWith db clk C D input))) in
  length chunks = ((R + C - 1) / C)%nat /\
  Forall (fun c => (0 < length c)%nat) chunks /\
  (forall i c, chunks !! i = Some c -> (S i < length chunks)%nat -> length c = C) /\
  (forall c, last chunks = Some c ->
             length c = if (R mod C =? 0)%nat then C else (R mod C)%nat) /\
  concat chunks = rows.
Proof.
  intros HC Hne Hv Hp Hg rows R chunks.
  destruct (run_started db clk C D HC input resp Hne Hv Hp) as (cs & b & Hsplit & Hrun).
  assert (Hchunks : chunks = cs ++ lastChunk b).
  { subst chunks. rewrite Hrun, Hg. cbn [events failure].
    rewrite parseAll_stringify. cbn [dataChunks].
    rewrite dataChunks_app, dataChunks_chunkEvents. apply app_nil_r. }
  rewrite Hg in Hsplit. cbn [yielded] in Hsplit. fold rows in Hsplit.
  destruct (splitsInto_div _ _ _ _ Hsplit) as [Hq Hr].
  pose proof (splitsInto_ceil _ _ _ _ Hsplit) as Hceil.
  destruct Hsplit as (Hall & Hb & Hcat).
  rewrite Hchunks. repeat split.
  - exact Hceil.
  - apply Forall_app. split.
    + eapply Forall_impl; [exact Hall|]. simpl. intros c ->. exact HC.
    + destruct b; simpl; [constructor | constructor; [simpl; lia | constructor]].
  - intros i c Hi Hlt. rewrite length_app in Hlt.
    assert (Hi' : (i < length cs)%nat) by (destruct b; simpl in Hlt; lia).
    rewrite lookup_app_l in Hi by exact Hi'.
    eapply Forall_lookup_1 in Hall; [exact Hall | exact Hi].
  - intros c Hlast. fold R in Hr. destruct b as [|x b].
    + simpl in Hlast, Hr. rewrite app_nil_r in Hlast. rewrite <- Hr. simpl.
      apply last_Some in Hlast as [l' ->].
      apply Forall_app in Hall as [_ Hall]. now inversion Hall.
    + simpl lastChunk in Hlast. rewrite last_snoc in Hlast. injection Hlast as <-.
      rewrite <- Hr. simpl. reflexivity.
  - now rewrite concat_lastChunk.
Qed.

(** C7.  When the row source throws after it has produced [k] rows, the
    events are the query_start event, then [floor(k/C)] data_chunk events of
    [C] rows each, holding the first rows in order, then one query_error
    event with the message of the thrown error, and nothing else: no
    query_complete event, and the chunks already emitted stay. *)
Theorem failure_after_k_rows (db : DatabaseManager) (clk : Clock) (C D : nat)
    (input : DbQueryToolInput) (resp : QueryResponse)
    (dbChunks : list (list Row)) (e : Thrown) :
  (0 < C)%nat ->
  sql input <> "" ->
  validateQuery db (sql input) = true ->
  executeQuery db schemaProbe = inr resp ->
  executeStreamingQuery db (applyLimit input) D = mkGenRun dbChunks (Some e) ->
  let rows := concat dbChunks in
  let k := length rows in
  exists cs : list (list Row),
    parseAll (events (executeStreamingToolWith db clk C D input)) =
      query_start (applyLimit input) (columns resp) (startTimestamp clk)
      :: chunkEvents 0 0 cs ++
         [query_error true (messageOr "Unknown error" e) (errorTimestamp clk)] /\
    length cs = (k / C)%nat /\
    Forall (fun c => length c = C) cs /\
    concat cs = take (C * (k / C)) rows.
Proof.
  intros HC Hne Hv Hp Hg rows k.
  destruct (run_started db clk C D HC input resp Hne Hv Hp) as (cs & b & Hsplit & Hrun).
  rewrite Hg in Hsplit, Hrun. cbn [yielded failure] in Hsplit, Hrun.
  exists cs. rewrite Hrun. cbn [events]. rewrite parseAll_stringify.
  split; [reflexivity|].
  destruct (splitsInto_div _ _ _ _ Hsplit) as [Hq _].
  pose proof (splitsInto_take _ _ _ _ Hsplit) as Ht.
  destruct Hsplit as (Hall & _ & _). auto.
Qed.

Lemma chunk_sequencing_witness :
  let input := mkInput "select * from employees" None in
  let rows := concat (yielded (executeStreamingQuery sampleDb (applyLimit input) 50)) in
  let chunks :=
    dataChunks (parseAll (events (executeStreamingToolWith sampleDb sampleClock 5 50 input))) in
  length chunks = ((length rows + 5 - 1) / 5)%nat /\
  Forall (fun c => (0 < length c)%nat) chunks /\
  (forall i c, chunks !! i = Some c -> (S i < length chunks)%nat -> length c = 5%nat) /\
  (forall c, last chunks = Some c ->
             length c = if (length rows mod 5 =? 0)%nat then 5%nat
                        else (length rows mod 5)%nat) /\
  concat chunks = rows.
Proof.
  apply (chunk_sequencing sampleDb sampleClock 5 50
           (mkInput "select * from employees" None)
           (mkQueryResponse [] sampleColumns 0 3)).
  - lia.
  - discriminate.
  - reflexivity.
  - reflexivity.
  - reflexivity.
Defined.

Lemma failure_after_k_rows_witness :
  exists cs : list (list Row),
    parseAll (events (executeStreamingToolWith failingDb sampleClock 5 50
                        (mkInput "select * from employees" None))) =
      query_start "select * from employees" sampleColumns (startTimestamp sampleClock)
      :: chunkEvents 0 0 cs ++
         [query_error true "IO Error: connection lost" (errorTimestamp sampleClock)] /\
    length cs = (12 / 5)%nat /\
    Forall (fun c => length c = 5%nat) cs /\
    concat cs = take (5 * (12 / 5)) (JNumber <$> [1; 2; 3; 4; 5; 6; 7; 8; 9; 10; 11; 12]).
Proof.
  assert (H5 : (0 < 5)%nat) by lia.
  assert (Hsql : sql (mkInput "select * from employees" None) <> "") by discriminate.
  exact (failure_after_k_rows failingDb sampleClock 5 50
           (mkInput "select * from employees" None)
           (mkQueryResponse [] sampleColumns 0 0)
           [JNumber <$> [1; 2; 3; 4; 5; 6; 7]; JNumber <$> [8; 9; 10; 11; 12]]
           (JsError "IO Error: connection lost")
           H5 Hsql eq_refl eq_refl eq_refl).
Defined.

(** C2.  In every run of [executeStreamingTool], a query_complete event
    carries as [totalRows] the sum of [rowsInChunk] over the data_chunk
    events emitted before it, and as [totalChunks] their number; it is the
    last event. *)
Theorem completion_totals (db : DatabaseManager) (clk : Clock)
    (input : DbQueryToolInput) (before after : list Event)
    (totalRows totalChunks : nat) (executionTime : Z) (completed : bool) :
  parseAll (events (executeStreamingTool db clk input)) =
    before ++ query_complete totalRows totalChunks executionTime completed :: after ->
  totalRows = sumList (rowsInChunks before) /\
  totalChunks = length (dataChunks before) /\
  after = [].
Proof.
  intros E. unfold executeStreamingTool in E.
  pose proof (run_shape db clk 5 50 input ltac:(lia)) as S. cbv zeta in S.
  destruct (reachesStart db input).
  - destruct S as (q & cols & chunks & lst & Hevs & Hlast).
    rewrite Hevs in E. rewrite app_comm_cons in E.
    apply terminal_is_last in E as (-> & E & ->);
      [| simpl; apply chunkEvents_not_terminal | reflexivity].
    destruct Hlast as [[m ->] | ->]; [discriminate|].
    injection E as -> -> _ _.
    cbn [rowsInChunks dataChunks].
    rewrite rowsInChunks_chunkEvents, dataChunks_chunkEvents, sumList_lengths. auto.
  - destruct S as [m Hevs]. rewrite Hevs in E.
    destruct before as [|b0 before]; [discriminate|].
    injection E as _ E. destruct before; discriminate.
Qed.

Lemma completion_totals_witness :
  12%nat = sumList (rowsInChunks
             (removelast (parseAll (events (executeStreamingTool sampleDb sampleClock
                                              (mkInput "select * from employees" None)))))) /\
  3%nat = length (dataChunks
             (removelast (parseAll (events (executeStreamingTool sampleDb sampleClock
                                              (mkInput "select * from employees" None)))))) /\
  @nil Event = [].
Proof.
  apply (completion_totals sampleDb sampleClock (mkInput "select * from employees" None)
           _ [] 12 3 6000 true).
  reflexivity.
Defined.

(** C3.  In every event sequence of [executeStreamingTool] the data_chunk
    events are numbered 1, 2, 3, ... and [totalRowsSoFar] of each is the sum
    of [rowsInChunk] over the data_chunk events up to and including it; in
    particular it never decreases. *)
Theorem chunk_numbering (db : DatabaseManager) (clk : Clock) (input : DbQueryToolInput) :
  let evs := parseAll (events (executeStreamingTool db clk input)) in
  chunkNumbers evs = seq 1 (length (dataChunks evs)) /\
  (forall i t, totalsSoFar evs !! i = Some t ->
               t = sumList (take (S i) (rowsInChunks evs))) /\
  (forall i a b, totalsSoFar evs !! i = Some a -> totalsSoFar evs !! S i = Some b ->
                 (a <= b)%nat).
Proof.
  intros evs.
  assert (Hsum : forall i t, totalsSoFar evs !! i = Some t ->
                             t = sumList (take (S i) (rowsInChunks evs))).
  { subst evs. unfold executeStreamingTool.
    pose proof (run_shape db clk 5 50 input ltac:(lia)) as S. cbv zeta in S.
    destruct (reachesStart db input).
    - destruct S as (q & cols & chunks & lst & -> & Hlast).
      cbn [totalsSoFar rowsInChunks].
      rewrite totalsSoFar_app, rowsInChunks_app, rowsInChunks_chunkEvents.
      destruct Hlast as [[m ->] | ->]; cbn [totalsSoFar rowsInChunks];
        rewrite !app_nil_r; intros i t H; apply totalsSoFar_chunkEvents in H; exact H.
    - destruct S as [m ->]. intros i t H. destruct i; discriminate. }
  repeat split.
  - subst evs. unfold executeStreamingTool.
    pose proof (run_shape db clk 5 50 input ltac:(lia)) as S. cbv zeta in S.
    destruct (reachesStart db input).
    + destruct S as (q & cols & chunks & lst & -> & Hlast).
      cbn [chunkNumbers dataChunks].
      rewrite chunkNumbers_app, dataChunks_app, chunkNumbers_chunkEvents,
        dataChunks_chunkEvents.
      destruct Hlast as [[m ->] | ->]; cbn [chunkNumbers dataChunks];
        now rewrite !app_nil_r.
    + destruct S as [m ->]. reflexivity.
  - exact Hsum.
  - intros i a b Ha Hb. apply Hsum in Ha, Hb. subst a b. apply sumList_take_mono.
Qed.

(** C4, as the code has it.  Every event sequence of [executeStreamingTool]
    ends with its only terminal event.  When the query is present and
    accepted and the schema probe returns, the sequence is one query_start,
    any number of data_chunk events and the terminal event; otherwise it is
    a single query_error event, with no query_start. *)
Theorem event_framing (db : DatabaseManager) (clk : Clock) (input : DbQueryToolInput) :
  let evs := parseAll (events (executeStreamingTool db clk input)) in
  (exists body last,
     evs = body ++ [last] /\ isTerminal last = true /\
     forallb (fun e => negb (isTerminal e)) body = true) /\
  (if reachesStart db input then framed evs
   else exists m, evs = [query_error true m (errorTimestamp clk)]).
Proof.
  intros evs. subst evs. unfold executeStreamingTool.
  pose proof (run_shape db clk 5 50 input ltac:(lia)) as S. cbv zeta in S.
  destruct (reachesStart db input).
  - destruct S as (q & cols & chunks & lst & -> & Hlast).
    assert (Ht : isTerminal lst = true) by (destruct Hlast as [[m ->] | ->]; reflexivity).
    split.
    + exists (query_start q cols (startTimestamp clk) :: chunkEvents 0 0 chunks), lst.
      repeat split; [exact Ht|]. simpl. apply chunkEvents_not_terminal.
    + exists (query_start q cols (startTimestamp clk)), (chunkEvents 0 0 chunks), lst.
      repeat split; [apply isDataChunk_chunkEvents | exact Ht].
  - destruct S as [m ->]. split; [|eauto].
    exists [], (query_error true m (errorTimestamp clk)). auto.
Qed.

(** C4 as stated fails: a rejected query yields the query_error event alone,
    so the sequence does not start with a query_start event. *)
Lemma event_framing_counterexample :
  ~ framed (parseAll (events (executeStreamingTool sampleDb sampleClock
                                (mkInput "DROP TABLE employees" None)))).
Proof.
  intros (first & middle & lst & E & Hs & _).
  vm_compute in E. injection E as <- _. discriminate.
Qed.

(* ===================================================================== *)
(** * 14. Validation and the limit clause                                 *)
(* ===================================================================== *)

Lemma validateQuery_spec (sql : string) :
  Db.validateQuery sql =
  startsWith (trim (toLowerCase sql)) "select" &&
  forallb (fun k => negb (includes (trim (toLowerCase sql)) k)) Db.dangerousKeywords.
Proof.
  unfold Db.validateQuery, Db.dangerousKeywords. cbn [forallb].
  destruct (startsWith _ _); cbn [negb andb]; [|reflexivity].
  repeat (destruct (includes (trim (toLowerCase sql)) _); cbn [negb andb];
          [reflexivity|]).
  reflexivity.
Qed.

Lemma validateQuery_rejects (sql : string) :
  startsWith (trim (toLowerCase sql)) "select" = false \/
  (exists k, In k Db.dangerousKeywords /\ includes (trim (toLowerCase sql)) k = true) ->
  Db.validateQuery sql = false.
Proof.
  rewrite validateQuery_spec. intros [H | (k & Hk & Hi)].
  - now rewrite H.
  - apply andb_false_intro2. apply not_true_is_false. intros Hall.
    rewrite forallb_forall in Hall. specialize (Hall k Hk). rewrite Hi in Hall.
    discriminate.
Qed.

Lemma rejected_run_stream (db : DatabaseManager) (clk : Clock)
    (input : DbQueryToolInput) (m : string) :
  validateInput db input = throw (JsError m) ->
  streamExecute db clk input = throw (JsError m).
Proof. intros H. unfold streamExecute. rewrite H. reflexivity. Qed.

Lemma rejected_run_execute (db : DatabaseManager) (clk : Clock)
    (input : DbQueryToolInput) (m : string) :
  validateInput db input = throw (JsError m) ->
  execute db clk input = mret (JSON_stringify (ExecuteFailure true m [] 0)).
Proof. intros H. unfold execute. rewrite H. reflexivity. Qed.

(** C5.  A query text that, lower-cased and trimmed, does not begin with
    "select" or contains one of the seven dangerous keywords is refused by
    [validateQuery]; the three tool methods then end without any call of a
    query method of the database manager, so nothing is sent to the store,
    and [executeStreamingTool] yields a single query_error event. *)
Theorem rejected_before_store (LocalTZA : TimeZone) (now : Z * Z) (this : Db.State)
    (clk : Clock) (input : DbQueryToolInput) :
  let sanitizedSql := trim (toLowerCase (sql input)) in
  let db := Db.manager LocalTZA now this in
  startsWith sanitizedSql "select" = false \/
  (exists keyword, In keyword Db.dangerousKeywords /\
                   includes sanitizedSql keyword = true) ->
  Db.validateQuery (sql input) = false /\
  calls (executeStreamingTool db clk input) = [] /\
  (exists m, parseAll (events (executeStreamingTool db clk input)) =
             [query_error true m (errorTimestamp clk)]) /\
  calls (streamExecute db clk input) = [] /\
  calls (execute db clk input) = [].
Proof.
  intros s db H. apply validateQuery_rejects in H.
  destruct (validateInput_cases db input) as [(_ & Hv & _) | [m Hm]].
  - simpl in Hv. congruence.
  - split; [exact H|]. unfold executeStreamingTool.
    rewrite (run_rejected db clk 5 50 input m Hm).
    rewrite (rejected_run_stream db clk input m Hm).
    rewrite (rejected_run_execute db clk input m Hm).
    repeat split; eauto.
Qed.

Lemma rejected_before_store_witness :
  let input := mkInput "  Select * from employees; DROP TABLE employees" (Some 5) in
  Db.validateQuery (sql input) = false /\
  calls (executeStreamingTool sampleDb sampleClock input) = [] /\
  (exists m, parseAll (events (executeStreamingTool sampleDb sampleClock input)) =
             [query_error true m (errorTimestamp sampleClock)]) /\
  calls (streamExecute sampleDb sampleClock input) = [] /\
  calls (execute sampleDb sampleClock input) = [].
Proof.
  apply (rejected_before_store tzUTC (0, 3) (Db.mkState (Some sampleConnection) true)
           sampleClock
           (mkInput "  Select * from employees; DROP TABLE employees" (Some 5))).
  right. exists "drop". split; [left; reflexivity | reflexivity].
Defined.

(** ** The limit clause *)

Lemma length_append (a b : string) :
  String.length (a +:+ b) = (String.length a + String.length b)%nat.
Proof. induction a as [|c a IH]; unfold_append; simpl; [reflexivity | now rewrite IH]. Qed.

Lemma append_not_fixed (a b : string) : b <> "" -> a +:+ b <> a.
Proof.
  intros Hb E. apply (f_equal String.length) in E. rewrite length_append in E.
  destruct b; [contradiction | simpl in E; lia].
Qed.

Lemma applyLimit_cases (input : DbQueryToolInput) :
  let trimmed := trim (sql input) in
  (exists n, limit input = Some n /\ 0 < n /\
             includes (toLowerCase trimmed) "limit" = false /\
             applyLimit input = trimmed +:+ " LIMIT " +:+ numberToString n) \/
  (applyLimit input = trimmed /\
   (limit input = None \/
    exists n, limit input = Some n /\
              (n <= 0 \/ includes (toLowerCase trimmed) "limit" = true))).
Proof.
  intros trimmed. unfold applyLimit. fold trimmed.
  destruct (limit input) as [n|]; [|right; auto].
  destruct (n =? 0) eqn:E0; cbn [negb andb].
  - apply Z.eqb_eq in E0. right. split; [reflexivity|]. right. exists n. split; [reflexivity|lia].
  - destruct (n >? 0) eqn:E1.
    + destruct (includes (toLowerCase trimmed) "limit") eqn:Ei; cbn [negb].
      * right. split; [reflexivity|]. right. eauto.
      * left. exists n. repeat split; auto. lia.
    + right. split; [reflexivity|]. right. exists n. split; [reflexivity|lia].
Qed.

Section StreamRuns.
Variable db : DatabaseManager.
Variable clk : Clock.

Lemma stream_rows (rows : list Row) : forall (content : list ContentEntry) (n : nat),
  foldM (fun '(content, rowCount) row =>
           mret (content ++ [mkContentEntry "text" (JSON_stringify row)], S rowCount))
        rows (content, n) =
  mret (content ++ (entryOf <$> rows), (n + length rows)%nat).
Proof.
  induction rows as [|x rows IH]; intros content n.
  - simpl. now rewrite app_nil_r, Nat.add_0_r.
  - rewrite foldM_cons, bind_mret_l, IH, fmap_cons, <- app_assoc.
    cbn [length app].
    replace (n + S (length rows))%nat with (S n + length rows)%nat by lia.
    reflexivity.
Qed.

Lemma stream_run (input : DbQueryToolInput) :
  sql input <> "" ->
  validateQuery db (sql input) = true ->
  let q := applyLimit input in
  let g := executeStreamingQuery db q 1 in
  streamExecute db clk input =
    mkM [CallExecuteStreamingQuery q 1] []
        (match failure g with
         | Some e => inl (JsError (messageOr "Unknown error occurred" e))
         | None =>
             inr (mkStreamResult (entryOf <$> concat (yielded g))
                    (mkStreamMeta (length (concat (yielded g))) true
                                  (resultTimestamp clk)))
         end).
Proof.
  intros Hne Hv q g. unfold streamExecute.
  rewrite validateInput_ok by assumption. rewrite bind_mret_l.
  fold q. fold g. unfold forAwait, invoke. rewrite bind_returned.
  rewrite (foldM_concat
             (fun '(content, rowCount) row =>
                mret (content ++ [mkContentEntry "text" (JSON_stringify row)],
                      S rowCount))).
  rewrite stream_rows, bind_mret_l.
  destruct (failure g) as [e|]; reflexivity.
Qed.
End StreamRuns.

(** ** The rendering of the limit *)

(** The decimal numeral of a positive number has a first digit, which is
    not 0. *)
Lemma positive_numeral (p : positive) :
  match Pos.to_uint p with
  | Decimal.Nil | Decimal.D0 _ => False
  | _ => True
  end.
Proof.
  pose proof (DecimalPos.Unsigned.to_uint_nonnil p) as Hnil.
  pose proof (DecimalPos.Unsigned.to_uint_nonzero p) as Hzero.
  pose proof (DecimalPos.Unsigned.to_of (Pos.to_uint p)) as Hnorm.
  rewrite DecimalPos.Unsigned.of_to in Hnorm. cbn [N.to_uint] in Hnorm.
  destruct (Pos.to_uint p) as [|u|u|u|u|u|u|u|u|u|u]; try exact I; [contradiction|].
  rewrite DecimalFacts.unorm_D0 in Hnorm. unfold Decimal.unorm in Hnorm.
  destruct (Decimal.nzhead u) eqn:E; try discriminate.
  - injection Hnorm as ->. now apply Hzero.
  - now apply DecimalFacts.nzhead_nonzero in E.
Qed.

(** Read as a decimal numeral, the rendering of [n] is [n]. *)
Lemma numberToString_parse (n : Z) :
  0 < n -> Z.of_int <$> NilZero.int_of_string (numberToString n) = Some n.
Proof.
  intros Hn. unfold numberToString. rewrite NilZero.isi.
  - cbn [fmap option_fmap option_map]. now rewrite DecimalZ.of_to.
  - destruct n as [|p|p]; try lia. cbn. intros [= H].
    now apply DecimalPos.Unsigned.to_uint_nonnil in H.
  - destruct n as [|p|p]; try lia. discriminate.
Qed.

Lemma numberToString_leading (n : Z) :
  0 < n -> startsWith (numberToString n) "0" = false.
Proof.
  intros Hn. destruct n as [|p|p]; try lia.
  unfold numberToString. cbn [Z.to_int NilZero.string_of_int].
  pose proof (positive_numeral p) as H.
  destruct (Pos.to_uint p); try contradiction; reflexivity.
Qed.

(** C8.  For an accepted query the SQL text handed to
    [executeStreamingQuery], by [streamExecute] and by [executeStreamingTool]
    alike, is the trimmed query text followed by " LIMIT <limit>" exactly
    when a positive limit is given and the lower-cased text does not contain
    "limit"; without a limit, or when the text contains "limit", it is the
    trimmed query text itself.  The limit is an integer up to
    [Number.MAX_SAFE_INTEGER], and <limit> is its decimal numeral: it reads
    back as the limit and has no leading zero, so that the limit 7 gives
    " LIMIT 7". *)
Theorem limit_clause (db : DatabaseManager) (clk : Clock) (input : DbQueryToolInput)
    (resp : QueryResponse) :
  sql input <> "" ->
  validateQuery db (sql input) = true ->
  executeQuery db schemaProbe = inr resp ->
  let trimmed := trim (sql input) in
  exists executed : string,
    calls (streamExecute db clk input) = [CallExecuteStreamingQuery executed 1] /\
    calls (executeStreamingTool db clk input) =
      [CallExecuteQuery schemaProbe; CallExecuteStreamingQuery executed 50] /\
    (forall n, limit input = Some n -> 0 < n <= 9007199254740991 ->
       let digits := numberToString n in
       Z.of_int <$> NilZero.int_of_string digits = Some n /\
       startsWith digits "0" = false /\
       (executed = trimmed +:+ " LIMIT " +:+ digits <->
        includes (toLowerCase trimmed) "limit" = false)) /\
    (limit input = None \/ includes (toLowerCase trimmed) "limit" = true ->
     executed = trimmed).
Proof.
  intros Hne Hv Hp trimmed. exists (applyLimit input).
  rewrite (stream_run db clk input Hne Hv). unfold executeStreamingTool.
  destruct (run_started db clk 5 50 ltac:(lia) input resp Hne Hv Hp)
    as (cs & b & _ & ->).
  cbn [calls]. do 2 (split; [reflexivity|]).
  destruct (applyLimit_cases input) as [(n & Hl & Hn & Hi & ->) | (-> & Hcase)];
    subst trimmed; cbv zeta in *.
  - split.
    + intros n' Hl' Hn'. rewrite Hl in Hl'. injection Hl' as <-.
      split; [apply numberToString_parse; lia|].
      split; [apply numberToString_leading; lia|]. tauto.
    + intros [Hl' | Hi']; congruence.
  - split; [|reflexivity].
    intros n Hl Hn.
    split; [apply numberToString_parse; lia|].
    split; [apply numberToString_leading; lia|]. split.
    + intros E. symmetry in E. apply append_not_fixed in E; [contradiction|].
      rewrite append_cons. discriminate.
    + intros Hi. destruct Hcase as [Hl' | (n' & Hl' & [Hn' | Hi'])]; try congruence.
      rewrite Hl in Hl'. injection Hl' as <-. lia.
Qed.

Lemma limit_clause_witness :
  calls (streamExecute sampleDb sampleClock (mkInput " SELECT * FROM employees " (Some 7)))
    = [CallExecuteStreamingQuery "SELECT * FROM employees LIMIT 7" 1] /\
  calls (executeStreamingTool sampleDb sampleClock
           (mkInput " SELECT * FROM employees " (Some 7))) =
    [CallExecuteQuery "SELECT * FROM employees LIMIT 0";
     CallExecuteStreamingQuery "SELECT * FROM employees LIMIT 7" 50].
Proof.
  assert (Hsql : sql (mkInput " SELECT * FROM employees " (Some 7)) <> "") by discriminate.
  destruct (limit_clause sampleDb sampleClock (mkInput " SELECT * FROM employees " (Some 7))
              (mkQueryResponse [] sampleColumns 0 3) Hsql eq_refl eq_refl)
    as (executed & Hstream & Htool & Hlimit & _).
  destruct (Hlimit 7 eq_refl ltac:(lia)) as (_ & _ & Hiff).
  rewrite Hstream, Htool, (proj2 Hiff eq_refl). split; reflexivity.
Defined.

(* ===================================================================== *)
(** * 15. The buffered path and the streaming path                        *)
(* ===================================================================== *)

Lemma includes_limit_suffix (L d k' : string) (h : ascii) :
  occurs " " (String h k') = false ->
  isNumberChar h = false ->
  includes "limit" (String h k') = false ->
  (forall c, occurs c d = true -> isNumberChar c = true) ->
  includes (L +:+ " limit " +:+ d) (String h k') = includes L (String h k').
Proof.
  intros Hsp Hh Hlim Hd.
  assert (Hhead : Ascii.eqb h " " = false).
  { simpl in Hsp. apply orb_false_elim in Hsp as [Hsp _].
    now rewrite Ascii.eqb_sym. }
  change (" limit " +:+ d) with (String " " ("limit" +:+ String " " d)).
  rewrite includes_app_sep by exact Hsp.
  rewrite includes_cons. cbn [startsWith]. rewrite Hhead. cbn [orb].
  rewrite includes_app_sep by exact Hsp.
  rewrite Hlim, includes_cons. cbn [startsWith]. rewrite Hhead. cbn [orb].
  rewrite (includes_no_head h k' d); [apply orb_false_r|].
  apply not_true_is_false. intros Ho. apply Hd in Ho. congruence.
Qed.

Lemma includes_keyword_suffix (L d k : string) :
  In k Db.dangerousKeywords ->
  (forall c, occurs c d = true -> isNumberChar c = true) ->
  includes (L +:+ " limit " +:+ d) k = includes L k.
Proof.
  intros Hk Hd. unfold Db.dangerousKeywords in Hk. simpl in Hk.
  repeat (destruct Hk as [<- | Hk];
          [apply includes_limit_suffix; [reflexivity | reflexivity | reflexivity | exact Hd]|]).
  contradiction.
Qed.

Lemma applyLimit_revalidate (input : DbQueryToolInput) :
  Db.validateQuery (sql input) = true ->
  let q := applyLimit input in
  q <> "" /\ Db.validateQuery q = true /\ applyLimit (innerInput q input) = q.
Proof.
  intros Hv q. rewrite validateQuery_spec in Hv.
  rewrite <- toLowerCase_trim in Hv.
  apply andb_true_iff in Hv as [Hstart Hkw].
  assert (Hne : trim (sql input) <> "").
  { intros E. rewrite E in Hstart. discriminate. }
  subst q.
  destruct (applyLimit_cases input) as [(n & Hl & Hn & Hi & Hq) | (Hq & Hcase)];
    cbv zeta in *; rewrite Hq.
  - set (s := trim (sql input)) in *. set (d := numberToString n).
    assert (Hd : forall c, occurs c d = true -> isNumberChar c = true)
      by (intros c; apply numberToString_chars).
    assert (Htrim : trim (s +:+ " LIMIT " +:+ d) = s +:+ " LIMIT " +:+ d).
    { apply trim_app; [exact Hne | apply trim_headIsBlack | | rewrite append_cons; discriminate].
      rewrite trimEnd_app; rewrite trimEnd_black.
      - reflexivity.
      - intros c Hc. now apply Hd, isNumberChar_plain in Hc.
      - apply numberToString_nonempty.
      - intros c Hc. now apply Hd, isNumberChar_plain in Hc. }
    assert (Hlow : toLowerCase (s +:+ " LIMIT " +:+ d) = toLowerCase s +:+ " limit " +:+ d).
    { rewrite !toLowerCase_app. f_equal. f_equal.
      apply toLowerCase_fixed. intros c Hc. now apply Hd, isNumberChar_plain in Hc. }
    repeat split.
    + intros E. destruct s; [contradiction | discriminate].
    + rewrite validateQuery_spec, <- toLowerCase_trim, Htrim, Hlow.
      rewrite (startsWith_app _ _ _ Hstart). cbn [andb].
      apply forallb_forall. intros k Hk.
      rewrite includes_keyword_suffix by assumption.
      rewrite forallb_forall in Hkw. now apply Hkw.
    + unfold applyLimit, innerInput. cbn [sql limit]. rewrite Hl.
      destruct (n =? 0) eqn:E0; [apply Z.eqb_eq in E0; lia|].
      rewrite E0. cbn [negb andb].
      destruct (n >? 0) eqn:E1; [|rewrite Z.gtb_ltb in E1; apply Z.ltb_ge in E1; lia].
      rewrite Htrim, Hlow.
      replace (includes (toLowerCase s +:+ " limit " +:+ d) "limit") with true; [reflexivity|].
      symmetry. apply includes_app_r.
      change (" limit " +:+ d) with (String " " ("limit" +:+ String " " d)).
      rewrite includes_cons. apply orb_true_iff. right.
      now apply includes_app_l.
  - set (s := trim (sql input)) in *.
    assert (Htrim : trim s = s) by apply trim_idem.
    repeat split.
    + exact Hne.
    + rewrite validateQuery_spec, <- toLowerCase_trim, Htrim, Hstart. exact Hkw.
    + unfold applyLimit, innerInput. cbn [sql limit]. rewrite Htrim.
      destruct Hcase as [-> | (n & -> & Hn)]; [reflexivity|].
      destruct (n =? 0) eqn:E0; [reflexivity|]. rewrite E0. cbn [negb andb].
      destruct (n >? 0) eqn:E1; [|reflexivity].
      destruct Hn as [Hn | ->]; [|reflexivity].
      apply Z.gtb_lt in E1. lia.
Qed.

Lemma sliceLoop_concat (rows : list Row) (c : nat) :
  (0 < c)%nat ->
  forall (fuel i : nat),
    (length rows <= i + fuel)%nat ->
    concat (Db.sliceLoop fuel rows i c) = drop i rows.
Proof.
  intros Hc. induction fuel as [|f IH]; intros i Hlen; simpl.
  - symmetry. apply drop_ge. lia.
  - destruct (i <? length rows)%nat eqn:E.
    + simpl. rewrite IH by lia. unfold Db.slice.
      replace (i + c - i)%nat with c by lia.
      rewrite <- drop_drop. apply take_drop.
    + apply Nat.ltb_ge in E. symmetry. apply drop_ge. exact E.
Qed.

Lemma executeStreamingQuery_cases (LocalTZA : TimeZone) (this : Db.State) (q : string) :
  (exists e, forall c, Db.executeStreamingQuery LocalTZA this q c = mkGenRun [] (Some e)) \/
  (exists rows, forall c,
      Db.executeStreamingQuery LocalTZA this q c =
      mkGenRun (Db.sliceLoop (length rows) rows 0 c) None).
Proof.
  unfold Db.executeStreamingQuery.
  destruct (Db.initialized this); [|left; eauto].
  destruct (Db.connection this) as [conn|]; [|left; eauto].
  destruct (Db.runAndReadAll conn q) as [e | reader]; [left; eauto|].
  destruct (Db.convertBigIntsToNumbers _ _) as [e | rows]; [left; eauto|].
  right. eauto.
Qed.

Lemma parse_entries (rows : list Row) :
  (fun entry => JSON_parse (text entry)) <$> (entryOf <$> rows) = rows.
Proof.
  induction rows as [|r rows IH]; [reflexivity|].
  rewrite !fmap_cons, IH. reflexivity.
Qed.

(** C10.  On the database manager of [db.ts], whenever [streamExecute]
    returns (the query is accepted and the store executes it) and the schema
    probe of the buffered path returns, [execute] returns its success object,
    and the chunks of the data_chunk events in it, put one after the other,
    are exactly the rows of [streamExecute]'s content entries, in the same
    order; [_meta.totalRows] is their number. *)
Theorem buffered_and_streaming_agree (LocalTZA : TimeZone) (now : Z * Z)
    (this : Db.State) (clk : Clock) (input : DbQueryToolInput)
    (resp : QueryResponse) (out : StreamResult) :
  let db := Db.manager LocalTZA now this in
  executeQuery db schemaProbe = inr resp ->
  result (streamExecute db clk input) = inr out ->
  exists (evs : list Event) (timestamp note : string),
    result (execute db clk input) =
      inr (JSON_stringify (ExecuteSuccess true true 5 evs timestamp note)) /\
    concat (dataChunks evs) = (fun entry => JSON_parse (text entry)) <$> content out /\
    meta_totalRows (_meta out) = length (concat (dataChunks evs)).
Proof.
  intros db Hp Hout.
  destruct (validateInput_cases db input) as [(Hne & Hv & _) | [m Hm]];
    [|rewrite (rejected_run_stream db clk input m Hm) in Hout; discriminate].
  rewrite (stream_run db clk input Hne Hv) in Hout. cbn [result] in Hout.
  destruct (applyLimit_revalidate input Hv) as (Hqne & Hqv & Hfix).
  set (q := applyLimit input) in *.
  destruct (executeStreamingQuery_cases LocalTZA this q) as [[e Hg] | [rows Hg]];
    cbn [executeStreamingQuery db Db.manager] in Hout; rewrite Hg in Hout;
    cbn [failure yielded] in Hout; [discriminate|].
  injection Hout as <-. cbn [content _meta meta_totalRows].
  rewrite (sliceLoop_concat rows 1 ltac:(lia) (length rows) 0 ltac:(lia)), drop_0.
  rewrite parse_entries.
  unfold execute. rewrite validateInput_ok by assumption. rewrite bind_mret_l.
  fold q. unfold executeStreamingTool.
  destruct (run_started db clk 5 50 ltac:(lia) (innerInput q input) resp Hqne Hqv Hp)
    as (cs & b & Hsplit & Hrun).
  rewrite Hfix in Hsplit, Hrun.
  cbn [executeStreamingQuery db Db.manager] in Hsplit, Hrun.
  rewrite Hg in Hsplit, Hrun. cbn [failure yielded] in Hsplit, Hrun.
  rewrite (sliceLoop_concat rows 50 ltac:(lia) (length rows) 0 ltac:(lia)), drop_0
    in Hsplit, Hrun.
  rewrite Hrun. unfold collect. cbn [calls events result].
  rewrite bind_returned. unfold try_catch. cbn [result mret M_ret].
  do 3 eexists. split; [reflexivity|].
  change (JSON_parse <$> ?l) with (parseAll l). rewrite parseAll_stringify.
  cbn [dataChunks]. rewrite dataChunks_app, dataChunks_chunkEvents. cbn [dataChunks].
  rewrite app_nil_r, concat_lastChunk.
  destruct Hsplit as (_ & _ & <-). auto.
Qed.

Lemma buffered_and_streaming_agree_witness :
  exists (evs : list Event) (timestamp note : string),
    result (execute sampleDb sampleClock sampleInput) =
      inr (JSON_stringify (ExecuteSuccess true true 5 evs timestamp note)) /\
    concat (dataChunks evs) =
      (fun entry => JSON_parse (text entry)) <$> content sampleStreamResult /\
    meta_totalRows (_meta sampleStreamResult) = length (concat (dataChunks evs)).
Proof.
  exact (buffered_and_streaming_agree tzUTC (0, 3)
           (Db.mkState (Some sampleConnection) true) sampleClock sampleInput
           (mkQueryResponse [] sampleColumns 0 3) sampleStreamResult eq_refl eq_refl).
Defined.

(* ===================================================================== *)
(** * 16. Dates                                                           *)
(* ===================================================================== *)

(** The rows are converted before they are cut into chunks, so a converted
    date does not depend on the chunk size. *)
Lemma rows_independent_of_chunk_size (LocalTZA : TimeZone) (this : Db.State)
    (q : string) (c1 c2 : nat) :
  (0 < c1)%nat -> (0 < c2)%nat ->
  concat (yielded (Db.executeStreamingQuery LocalTZA this q c1)) =
  concat (yielded (Db.executeStreamingQuery LocalTZA this q c2)).
Proof.
  intros H1 H2.
  destruct (executeStreamingQuery_cases LocalTZA this q) as [[e Hg] | [rows Hg]];
    rewrite !Hg; [reflexivity|]. cbn [yielded].
  now rewrite !sliceLoop_concat by lia.
Qed.

(** ** The calendar functions *)

(** [YearFromDay] is the year of ECMA-262: the largest [y] whose first day is
    not after [d]. *)
Lemma YearFromDay_spec (d : Z) :
  DayFromYear (YearFromDay d) <= d < DayFromYear (YearFromDay d + 1).
Proof.
  unfold YearFromDay.
  set (y := 1970 + d * 400 / 146097).
  destruct (Z.ltb_spec d (DayFromYear y)) as [H1 | H1].
  - replace (y - 1 + 1) with y by lia. split; [|exact H1].
    unfold DayFromYear in *. subst y. Z.div_mod_to_equations. lia.
  - destruct (Z.leb_spec (DayFromYear (y + 1)) d) as [H2 | H2].
    + split; [exact H2|]. unfold DayFromYear in *. subst y.
      Z.div_mod_to_equations. lia.
    + split; assumption.
Qed.

Lemma DayFromYear_succ (y : Z) : DayFromYear (y + 1) = DayFromYear y + DaysInYear y.
Proof.
  unfold DayFromYear, DaysInYear.
  destruct (Z.eqb_spec (y mod 4) 0), (Z.eqb_spec (y mod 100) 0),
    (Z.eqb_spec (y mod 400) 0); cbn [negb andb orb];
    Z.div_mod_to_equations; lia.
Qed.

Lemma DayWithinYear_range (t : Z) :
  0 <= DayWithinYear t < DaysInYear (YearFromTime t).
Proof.
  unfold DayWithinYear, YearFromTime.
  pose proof (YearFromDay_spec (Day t)) as H.
  rewrite DayFromYear_succ in H. lia.
Qed.

(** [MonthFromTime] is the month whose days contain the day of the year. *)
Lemma MonthFromTime_spec (t : Z) :
  let leap := InLeapYear (YearFromTime t) in
  let m := MonthFromTime t in
  0 <= m <= 11 /\
  DaysBeforeMonth leap m <= DayWithinYear t < DaysBeforeMonth leap (m + 1).
Proof.
  intros leap m. subst m. unfold MonthFromTime. fold leap.
  pose proof (DayWithinYear_range t) as Hr.
  assert (Hleap : DaysInYear (YearFromTime t) = 365 + leap /\ (leap = 0 \/ leap = 1)).
  { subst leap. unfold InLeapYear, DaysInYear.
    destruct ((_ =? 0) && _); simpl; lia. }
  destruct Hleap as [Hd Hl]. rewrite Hd in Hr. clear Hd.
  set (d := DayWithinYear t) in *. clearbody d leap.
  repeat (match goal with
          | |- context [Z.ltb ?a ?b] => destruct (Z.ltb_spec a b)
          end); simpl in *; lia.
Qed.

Lemma DateFromTime_range (t : Z) : 1 <= DateFromTime t <= 31.
Proof.
  unfold DateFromTime. pose proof (MonthFromTime_spec t) as H. cbv zeta in H.
  destruct H as [Hm H].
  assert (Hl : InLeapYear (YearFromTime t) = 0 \/ InLeapYear (YearFromTime t) = 1)
    by (unfold InLeapYear; destruct (_ =? _); auto).
  set (leap := InLeapYear (YearFromTime t)) in *.
  set (d := DayWithinYear t) in *.
  set (m := MonthFromTime t) in *. clearbody leap d m.
  assert (Hcases : m = 0 \/ m = 1 \/ m = 2 \/ m = 3 \/ m = 4 \/ m = 5 \/ m = 6 \/
                   m = 7 \/ m = 8 \/ m = 9 \/ m = 10 \/ m = 11) by lia.
  repeat (destruct Hcases as [-> | Hcases]; [simpl in *; lia|]).
  subst m. simpl in *. lia.
Qed.

(** ** The conversion of a stored date in a time zone with a fixed offset *)

Lemma Day_of_day (d : Z) : Day (d * msPerDay) = d.
Proof. unfold Day, msPerDay. now rewrite Z.div_mul. Qed.

Lemma isoDate_of_day (t : Z) : isoDate t = isoDate (Day t * msPerDay).
Proof.
  unfold isoDate, MonthFromTime, DateFromTime, MonthFromTime, DayWithinYear, YearFromTime.
  now rewrite !Day_of_day.
Qed.

Lemma padStart0_chars (c : ascii) (fuel width : nat) : forall s,
  occurs c (padStart0 fuel width s) = true -> c = "0"%char \/ occurs c s = true.
Proof.
  induction fuel as [|f IH]; intros s; simpl; [auto|].
  destruct (String.length s <? width)%nat; [|auto].
  intros H. apply IH in H as [H | H]; [auto|].
  simpl in H. apply orb_true_iff in H as [H | H]; [|auto].
  left. now apply Ascii.eqb_eq in H.
Qed.

Lemma pad_chars (c : ascii) (width : nat) (n : Z) :
  occurs c (pad width n) = true -> isNumberChar c = true.
Proof.
  unfold pad. intros H. apply padStart0_chars in H as [-> | H]; [reflexivity|].
  now apply numberToString_chars in H.
Qed.

Lemma isoDate_no_T (t : Z) : occurs "T" (isoDate t) = false.
Proof.
  assert (Hp : forall w n, occurs "T" (pad w n) = false).
  { intros w n. apply not_true_is_false. intros H. apply pad_chars in H. discriminate. }
  unfold isoDate.
  destruct ((0 <=? YearFromTime t) && (YearFromTime t <=? 9999));
    [|destruct (YearFromTime t <? 0)];
    rewrite ?occurs_app, ?Hp; reflexivity.
Qed.

Lemma splitT0_app (a b : string) :
  occurs "T" a = false -> splitT0 (a +:+ "T" +:+ b) = a.
Proof.
  induction a as [|c a IH]; intros H.
  - reflexivity.
  - rewrite append_cons. cbn [occurs splitT0] in *.
    apply orb_false_elim in H as [H1 H2].
    rewrite (Ascii.eqb_sym c "T"), H1, IH by exact H2. reflexivity.
Qed.

(** In a zone with the fixed offset [offset] the stored day [days] comes out
    as the UTC date of the instant [days * msPerDay - offset]. *)
Lemma convertDate_fixed (offset days : Z) :
  Z.abs offset <= 8640000000000000 ->
  Db.convertDate (tzFixed offset) days =
    match TimeClip (days * msPerDay - offset) with
    | Some t => inr (isoDate (Day t * msPerDay))
    | None => inl (JsError "Invalid time value")
    end.
Proof.
  intros Ho. unfold Db.convertDate, newDate, getDate, setDate, LocalTime, UTC, tzFixed.
  change (MakeDate (MakeDay _ 0 1) (MakeTime 0 0 0 0)) with 0.
  replace (TimeClip (0 - offset)) with (Some (- offset))
    by (unfold TimeClip; destruct (Z.gtb_spec (Z.abs (0 - offset)) 8640000000000000);
        [lia | f_equal; lia]).
  cbn [mbind option_bind]. replace (- offset + offset) with 0 by lia.
  change (DateFromTime 0) with 1. change (YearFromTime 0) with 1970.
  change (MonthFromTime 0) with 0. change (TimeWithinDay 0) with 0.
  replace (MakeDate (MakeDay 1970 0 (1 + days)) 0) with (days * msPerDay)
    by (unfold MakeDate, MakeDay; change (DayFromYear (1970 + 0 / 12)) with 0;
        change (0 mod 12) with 0; cbn [DaysBeforeMonth]; lia).
  destruct (TimeClip (days * msPerDay - offset)) as [t|]; [|reflexivity].
  cbn [toISOString]. rewrite splitT0_app by apply isoDate_no_T.
  now rewrite isoDate_of_day.
Qed.

(** East of Greenwich every stored date comes out as the day before. *)
Lemma convertDate_east (offset days : Z) :
  0 < offset <= msPerDay ->
  -99999998 <= days <= 99999998 ->
  Db.convertDate (tzFixed offset) days = inr (isoDate ((days - 1) * msPerDay)) /\
  Db.convertDate tzUTC days = inr (isoDate (days * msPerDay)).
Proof.
  unfold tzUTC, msPerDay. intros Ho Hd.
  rewrite !convertDate_fixed by lia. unfold TimeClip, msPerDay.
  destruct (Z.gtb_spec (Z.abs (days * 86400000 - offset)) 8640000000000000); [lia|].
  destruct (Z.gtb_spec (Z.abs (days * 86400000 - 0)) 8640000000000000); [lia|].
  split; do 2 f_equal; unfold Day, msPerDay; f_equal; Z.div_mod_to_equations; lia.
Qed.

(** West of Greenwich, and in UTC, it comes out as the stored day. *)
Lemma convertDate_west (offset days : Z) :
  - msPerDay < offset <= 0 ->
  -99999998 <= days <= 99999998 ->
  Db.convertDate (tzFixed offset) days = inr (isoDate (days * msPerDay)).
Proof.
  unfold msPerDay. intros Ho Hd.
  rewrite convertDate_fixed by lia. unfold TimeClip, msPerDay.
  destruct (Z.gtb_spec (Z.abs (days * 86400000 - offset)) 8640000000000000); [lia|].
  do 2 f_equal. unfold Day, msPerDay. f_equal. Z.div_mod_to_equations. lia.
Qed.

(** C6 fails on the code.  The DuckDB date with [days = 18276] is
    2020-01-15.  [convertBigIntsToNumbers] builds the date in local time and
    prints it in UTC: in a process whose time zone is UTC the string is
    "2020-01-15", in a process whose time zone is Asia/Kolkata (UTC+05:30)
    the same stored date becomes "2020-01-14". *)
Theorem date_depends_on_time_zone :
  let stored := JObject [("startDate", JObject [("days", JNumber 18276)])] in
  Db.convertBigIntsToNumbers tzUTC stored =
    inr (JObject [("startDate", JString "2020-01-15")]) /\
  Db.convertBigIntsToNumbers tzKolkata stored =
    inr (JObject [("startDate", JString "2020-01-14")]).
Proof. split; vm_compute; reflexivity. Qed.

(** The same on another day, and west of Greenwich. *)
Example date_of_day_20000 :
  Db.convertDate tzUTC 20000 = inr "2024-10-04" /\
  Db.convertDate tzNewYorkWinter 20000 = inr "2024-10-04" /\
  Db.convertDate tzKolkata 20000 = inr "2024-10-03".
Proof. repeat split; vm_compute; reflexivity. Qed.

(** Stored dates outside the years 0000-9999 do not come out as YYYY-MM-DD,
    and those outside the range of [Date] make the conversion throw. *)
Example date_out_of_range :
  Db.convertDate tzUTC 2932897 = inr "+010000-01-01" /\
  Db.convertDate tzUTC 2147483647 = inl (JsError "Invalid time value").
Proof. split; vm_compute; reflexivity. Qed.


(* ===================================================================== *)
(** * 17. The session map                                                 *)
(* ===================================================================== *)

Lemma foldl_delete_lookup (ks : list string) :
  forall (m : gmap string Server.SessionInfo) (k : string),
    foldl (fun m sessionId => delete sessionId m) m ks !! k =
    if decide (k ∈ ks) then None else m !! k.
Proof.
  induction ks as [|a ks IH]; intros m k; cbn [foldl].
  - destruct (decide (k ∈ [])) as [Hin | _]; [|reflexivity].
    now apply not_elem_of_nil in Hin.
  - rewrite IH.
    destruct (decide (k ∈ ks)) as [Hin | Hnin];
      destruct (decide (k ∈ a :: ks)) as [Hin' | Hnin']; try reflexivity.
    + exfalso. apply Hnin'. now right.
    + apply elem_of_cons in Hin' as [-> | ?]; [apply lookup_delete_eq | contradiction].
    + apply lookup_delete_ne. intros ->. apply Hnin'. now left.
Qed.

Lemma cleanup_removes_expired (sessionTTL now : Z)
    (sessions : gmap string Server.SessionInfo) (sessionId : string)
    (session : Server.SessionInfo) :
  sessions !! sessionId = Some session ->
  sessionTTL < now - Server.lastAccessed session ->
  Server.cleanupExpiredSessions sessionTTL now sessions !! sessionId = None.
Proof.
  intros Hs Hexp. unfold Server.cleanupExpiredSessions.
  rewrite foldl_delete_lookup.
  match goal with |- context [decide ?P] => destruct (decide P) as [_ | Hnin] end;
    [reflexivity|].
  exfalso. apply Hnin. apply list_elem_of_bind. exists (sessionId, session). split.
  - apply Z.gtb_lt in Hexp. rewrite Hexp. now left.
  - now apply elem_of_map_to_list.
Qed.

Lemma deleteSession_unknown (sessions : gmap string Server.SessionInfo)
    (sessionId : string) :
  sessions !! sessionId = None ->
  Server.deleteSession sessions sessionId =
    (sessions, Server.mkResponse 404 false ("Session " +:+ sessionId +:+ " not found")).
Proof.
  intros H. unfold Server.deleteSession. rewrite bool_decide_eq_false_2; [reflexivity|].
  rewrite H. intros [? ?]. discriminate.
Qed.

(** C9.  The DELETE handler is total.  For a session id in the map it
    removes that session, leaves every other session alone and answers with
    the success body; for an id that is not in the map, and so for one that
    the expiry sweep has removed, it leaves the map as it is and answers 404
    with the "not found" body. *)
Theorem session_termination (sessions : gmap string Server.SessionInfo)
    (sessionId : string) :
  match sessions !! sessionId with
  | Some _ =>
      Server.deleteSession sessions sessionId =
        (delete sessionId sessions,
         Server.mkResponse 200 true
           ("Session " +:+ sessionId +:+ " terminated successfully")) /\
      (Server.deleteSession sessions sessionId).1 !! sessionId = None /\
      (forall other, other <> sessionId ->
         (Server.deleteSession sessions sessionId).1 !! other = sessions !! other)
  | None =>
      Server.deleteSession sessions sessionId =
        (sessions,
         Server.mkResponse 404 false ("Session " +:+ sessionId +:+ " not found"))
  end /\
  (forall (sessionTTL now : Z) (session : Server.SessionInfo),
     sessions !! sessionId = Some session ->
     sessionTTL < now - Server.lastAccessed session ->
     let swept := Server.cleanupExpiredSessions sessionTTL now sessions in
     Server.deleteSession swept sessionId =
       (swept, Server.mkResponse 404 false ("Session " +:+ sessionId +:+ " not found"))).
Proof.
  split.
  - destruct (sessions !! sessionId) as [s|] eqn:E.
    + assert (Hdel : Server.deleteSession sessions sessionId =
        (delete sessionId sessions,
         Server.mkResponse 200 true
           ("Session " +:+ sessionId +:+ " terminated successfully"))).
      { unfold Server.deleteSession. rewrite bool_decide_eq_true_2; [reflexivity|].
        rewrite E. eauto. }
      rewrite Hdel. cbn [fst]. repeat split.
      * apply lookup_delete_eq.
      * intros other Hne. apply lookup_delete_ne. congruence.
    + now apply deleteSession_unknown.
  - intros ttl now s Hs Hexp swept. apply deleteSession_unknown.
    now apply (cleanup_removes_expired ttl now sessions sessionId s).
Qed.

Lemma session_termination_witness :
  (Server.deleteSession sampleSessions "s-1" =
     (delete "s-1" sampleSessions,
      Server.mkResponse 200 true "Session s-1 terminated successfully") /\
   Server.deleteSession sampleSessions "s-9" =
     (sampleSessions, Server.mkResponse 404 false "Session s-9 not found")) /\
  Server.deleteSession (Server.cleanupExpiredSessions 1800000 2000000 sampleSessions) "s-1" =
    (Server.cleanupExpiredSessions 1800000 2000000 sampleSessions,
     Server.mkResponse 404 false "Session s-1 not found").
Proof.
  split; [split|].
  - exact (proj1 (proj1 (session_termination sampleSessions "s-1"))).
  - exact (proj1 (session_termination sampleSessions "s-9")).
  - apply (proj2 (session_termination sampleSessions "s-1") 1800000 2000000
             (Server.mkSessionInfo 1 1 1000 2000)).
    + reflexivity.
    + reflexivity.
Defined.

Lemma chunk_numbering_witness :
  let evs := parseAll (events (executeStreamingTool sampleDb sampleClock sampleInput)) in
  chunkNumbers evs = [1; 2; 3]%nat /\
  totalsSoFar evs = [5; 10; 12]%nat /\
  rowsInChunks evs = [5; 5; 2]%nat.
Proof.
  pose proof (chunk_numbering sampleDb sampleClock sampleInput) as [H _].
  split; [exact H|]. split; reflexivity.
Defined.

Lemma event_framing_witness :
  framed (parseAll (events (executeStreamingTool sampleDb sampleClock sampleInput))) /\
  exists m, parseAll (events (executeStreamingTool sampleDb sampleClock
                                (mkInput "DROP TABLE employees" None))) =
            [query_error true m (errorTimestamp sampleClock)].
Proof.
  split.
  - exact (proj2 (event_framing sampleDb sampleClock sampleInput)).
  - exact (proj2 (event_framing sampleDb sampleClock (mkInput "DROP TABLE employees" None))).
Defined.

(* ===================================================================== *)
(** * 18. [convertBigIntsToNumbers]                                       *)
(* ===================================================================== *)

Lemma JsVal_induction (P : JsVal -> Prop) :
  P JUndefined -> P JNull -> (forall b, P (JBool b)) -> (forall n, P (JNumber n)) ->
  (forall n, P (JBigInt n)) -> (forall s, P (JString s)) ->
  (forall items, Forall P items -> P (JArray items)) ->
  (forall props, Forall (fun kv => P (snd kv)) props -> P (JObject props)) ->
  forall v, P v.
Proof.
  intros Hu Hn Hb Hnum Hbig Hs Harr Hobj. fix IH 1.
  intros [| | b | n | n | s | items | props];
    [apply Hu | apply Hn | apply Hb | apply Hnum | apply Hbig | apply Hs | |].
  - apply Harr. revert items. fix IHl 1.
    intros [|a l]; constructor; [apply IH | apply IHl].
  - apply Hobj. revert props. fix IHl 1.
    intros [|[k v] l]; constructor; [apply IH | apply IHl].
Qed.

Lemma convert_array (LocalTZA : TimeZone) (items : list JsVal) :
  Db.convertBigIntsToNumbers LocalTZA (JArray items) =
  match convertItems LocalTZA items with
  | inl e => inl e
  | inr vs => inr (JArray vs)
  end.
Proof.
  cbn [Db.convertBigIntsToNumbers].
  match goal with |- match ?f items with _ => _ end = _ =>
    assert (E : forall l, f l = convertItems LocalTZA l)
  end.
  { induction l as [|item l IHl]; [reflexivity|].
    cbn [convertItems]. rewrite <- IHl. reflexivity. }
  now rewrite E.
Qed.

Lemma convert_object (LocalTZA : TimeZone) (props : list (string * JsVal)) :
  Db.convertBigIntsToNumbers LocalTZA (JObject props) =
  match convertProps LocalTZA props with
  | inl e => inl e
  | inr converted => inr (JObject converted)
  end.
Proof.
  cbn [Db.convertBigIntsToNumbers].
  match goal with |- match ?f props with _ => _ end = _ =>
    assert (E : forall l, f l = convertProps LocalTZA l)
  end.
  { induction l as [|[key value] l IHl]; [reflexivity|].
    cbn [convertProps]. rewrite <- IHl. reflexivity. }
  now rewrite E.
Qed.

Lemma convertDate_error (LocalTZA : TimeZone) (days : Z) (e : Thrown) :
  Db.convertDate LocalTZA days = inl e -> e = JsError "Invalid time value".
Proof.
  unfold Db.convertDate, toISOString.
  destruct (setDate _ _ _); [discriminate | now intros [= <-]].
Qed.

Lemma convert_outcome (LocalTZA : TimeZone) (obj : JsVal) :
  match Db.convertBigIntsToNumbers LocalTZA obj with
  | inr converted => noBigInt converted = true
  | inl error => error = JsError "Invalid time value"
  end.
Proof.
  induction obj as [| | b | n | n | s | items IH | props IH] using JsVal_induction;
    try reflexivity.
  - rewrite convert_array.
    assert (H : match convertItems LocalTZA items with
                | inr vs => forallb noBigInt vs = true
                | inl e => e = JsError "Invalid time value"
                end).
    { induction IH as [|item items Hitem _ IHitems]; [reflexivity|].
      cbn [convertItems].
      destruct (Db.convertBigIntsToNumbers LocalTZA item) as [e | v]; [exact Hitem|].
      destruct (convertItems LocalTZA items) as [e | vs]; [exact IHitems|].
      cbn [forallb]. now rewrite Hitem, IHitems. }
    destruct (convertItems LocalTZA items); exact H.
  - rewrite convert_object.
    assert (H : match convertProps LocalTZA props with
                | inr ps => forallb (fun kv => noBigInt (snd kv)) ps = true
                | inl e => e = JsError "Invalid time value"
                end).
    { induction IH as [|[key value] props Hvalue _ IHprops]; [reflexivity|].
      cbn [convertProps snd] in *.
      assert (He : match convertEntry LocalTZA value with
                   | inr v => noBigInt v = true
                   | inl e => e = JsError "Invalid time value"
                   end).
      { unfold convertEntry. destruct (Db.duckDBDateDays value) as [days|]; [|exact Hvalue].
        destruct (Db.convertDate LocalTZA days) as [e | str] eqn:E; [|reflexivity].
        now apply convertDate_error in E. }
      destruct (convertEntry LocalTZA value) as [e | v]; [exact He|].
      destruct (convertProps LocalTZA props) as [e | ps]; [exact IHprops|].
      cbn [forallb snd]. now rewrite He, IHprops. }
    destruct (convertProps LocalTZA props); exact H.
Qed.

(** X1.  [convertBigIntsToNumbers] either returns a value in which no BigInt
    is left, at any depth, or throws the RangeError "Invalid time value" of a
    date that [Date] cannot hold; it throws nothing else.  So the rows that
    [executeQuery] returns hold no BigInt, and what [executeQuery] throws is
    "Database not initialized", the error of the store, or that RangeError. *)
Theorem convertBigIntsToNumbers_outcome (LocalTZA : TimeZone) :
  (forall obj,
     match Db.convertBigIntsToNumbers LocalTZA obj with
     | inr converted => noBigInt converted = true
     | inl error => error = JsError "Invalid time value"
     end) /\
  (forall now this sql,
     match Db.executeQuery LocalTZA now this sql with
     | inr response => forallb noBigInt (data response) = true
     | inl error =>
         error = JsError "Database not initialized" \/
         (exists connection, Db.connection this = Some connection /\
                             Db.runAndReadAll connection sql = inl error) \/
         error = JsError "Invalid time value"
     end).
Proof.
  split; [apply convert_outcome|]. intros now this sql. unfold Db.executeQuery.
  destruct (Db.initialized this); [|now left].
  destruct (Db.connection this) as [connection|]; [|now left].
  destruct (Db.runAndReadAll connection sql) as [error | reader] eqn:Hrun;
    [right; left; eauto|].
  pose proof (convert_outcome LocalTZA (JArray (Db.getRowObjects reader))) as H.
  rewrite convert_array in *.
  destruct (convertItems LocalTZA (Db.getRowObjects reader)) as [error | rows];
    [now right; right|].
  exact H.
Qed.

Lemma convertItems_length (LocalTZA : TimeZone) (items vs : list JsVal) :
  convertItems LocalTZA items = inr vs -> length vs = length items.
Proof.
  revert vs. induction items as [|item items IH]; intros vs; cbn [convertItems].
  - now intros [= <-].
  - destruct (Db.convertBigIntsToNumbers LocalTZA item); [discriminate|].
    destruct (convertItems LocalTZA items) as [|vs']; [discriminate|].
    intros [= <-]. simpl. now rewrite (IH vs').
Qed.

Lemma convertProps_keys (LocalTZA : TimeZone) (props ps : list (string * JsVal)) :
  convertProps LocalTZA props = inr ps -> ps.*1 = props.*1.
Proof.
  revert ps. induction props as [|[key value] props IH]; intros ps; cbn [convertProps].
  - now intros [= <-].
  - destruct (convertEntry LocalTZA value); [discriminate|].
    destruct (convertProps LocalTZA props) as [|ps']; [discriminate|].
    intros [= <-]. rewrite !fmap_cons. cbn [fst]. now rewrite (IH ps').
Qed.

(** X2.  A conversion that returns keeps the shape of the value: an array
    stays an array of the same length, an object none of whose keys is
    "__proto__" stays an object with the same keys in the same order, a
    BigInt becomes a Number, and every other value is returned as it is.
    (An assignment to the key "__proto__" creates no property, so that key
    is left aside.) *)
Theorem convertBigIntsToNumbers_shape (LocalTZA : TimeZone) (obj : JsVal) :
  match obj with
  | JObject props => "__proto__" ∉ props.*1
  | _ => True
  end ->
  match Db.convertBigIntsToNumbers LocalTZA obj with
  | inl _ => True
  | inr converted =>
      match obj with
      | JArray items =>
          exists vs, converted = JArray vs /\ length vs = length items
      | JObject props =>
          exists ps, converted = JObject ps /\ ps.*1 = props.*1
      | JBigInt n => converted = JNumber (Db.Number n)
      | _ => converted = obj
      end
  end.
Proof.
  intros _. destruct obj as [| | b | n | n | s | items | props]; try reflexivity.
  - rewrite convert_array.
    destruct (convertItems LocalTZA items) as [e | vs] eqn:E; [exact I|].
    exists vs. split; [reflexivity | now apply convertItems_length in E].
  - rewrite convert_object.
    destruct (convertProps LocalTZA props) as [e | ps] eqn:E; [exact I|].
    exists ps. split; [reflexivity | now apply convertProps_keys in E].
Qed.

Lemma convertBigIntsToNumbers_shape_witness :
  ("__proto__" ∉ sampleColumns) /\
  match Db.convertBigIntsToNumbers tzUTC (sampleRawRow 1) with
  | inl _ => True
  | inr converted => exists ps, converted = JObject ps /\ ps.*1 = sampleColumns
  end.
Proof.
  assert (H : "__proto__" ∉ sampleColumns).
  { unfold sampleColumns. intros Hin.
    repeat (apply elem_of_cons in Hin as [Hin | Hin]; [discriminate|]).
    now apply elem_of_nil in Hin. }
  split; [exact H|].
  exact (convertBigIntsToNumbers_shape tzUTC (sampleRawRow 1) H).
Defined.

(* ===================================================================== *)
(** * 19. [executeQuery] and [executeStreamingQuery]                      *)
(* ===================================================================== *)

Lemma sliceLoop_lookup (rows : list Row) (c : nat) :
  (0 < c)%nat ->
  forall (fuel i k : nat),
    (length rows <= i + fuel)%nat ->
    Db.sliceLoop fuel rows i c !! k =
    if (i + k * c <? length rows)%nat
    then Some (take c (drop (i + k * c) rows))
    else None.
Proof.
  intros Hc. induction fuel as [|f IH]; intros i k Hlen; cbn [Db.sliceLoop].
  - rewrite lookup_nil. destruct (Nat.ltb_spec (i + k * c) (length rows)); [lia | reflexivity].
  - destruct (Nat.ltb_spec i (length rows)) as [Hi | Hi].
    + destruct k as [|k].
      * cbn [lookup list_lookup]. rewrite Nat.mul_0_l, Nat.add_0_r.
        destruct (Nat.ltb_spec i (length rows)); [|lia].
        unfold Db.slice. now replace (i + c - i)%nat with c by lia.
      * cbn [lookup list_lookup]. change (Db.sliceLoop f rows (i + c) c !! k =
          if (i + S k * c <? length rows)%nat
          then Some (take c (drop (i + S k * c) rows)) else None).
        rewrite IH by lia. now replace (i + c + k * c)%nat with (i + S k * c)%nat by lia.
    + rewrite lookup_nil.
      destruct (Nat.ltb_spec (i + k * c) (length rows)); [lia | reflexivity].
Qed.

Lemma sliceLoop_length (rows : list Row) (c : nat) :
  (0 < c)%nat ->
  length (Db.sliceLoop (length rows) rows 0 c) = ((length rows + c - 1) / c)%nat.
Proof.
  intros Hc. set (chunks := Db.sliceLoop (length rows) rows 0 c).
  assert (Hk : forall k, (k < length chunks)%nat <-> (k * c < length rows)%nat).
  { intros k. rewrite <- lookup_lt_is_Some. unfold chunks.
    rewrite (sliceLoop_lookup rows c Hc (length rows) 0 k) by lia. cbn [Nat.add].
    destruct (Nat.ltb_spec (k * c) (length rows)); split; intros H';
      try lia; try (now eexists); now destruct H'. }
  set (n := length chunks) in *. set (len := length rows) in *.
  assert (Hn : (len <= n * c)%nat).
  { destruct (Nat.le_gt_cases len (n * c)) as [|Hlt]; [assumption|].
    apply Hk in Hlt. lia. }
  assert (Hp : (n = 0 \/ (n - 1) * c < len)%nat).
  { destruct n as [|m]; [now left | right]. apply Hk. lia. }
  apply (Nat.div_unique _ _ _ (len + c - 1 - n * c)%nat); nia.
Qed.

(** X4.  For a positive [chunkSize], a run of [executeStreamingQuery] that
    throws has yielded nothing; a run that ends normally has yielded the
    rows in slices: with [rows] the yielded rows in order, chunk [k] is
    [rows.slice(k * chunkSize, (k + 1) * chunkSize)], there are
    ceil(rows.length / chunkSize) chunks, and no chunk is empty or longer
    than [chunkSize]. *)
Theorem executeStreamingQuery_chunks (LocalTZA : TimeZone) (this : Db.State)
    (sql : string) (chunkSize : nat) :
  (0 < chunkSize)%nat ->
  let run := Db.executeStreamingQuery LocalTZA this sql chunkSize in
  match failure run with
  | Some _ => yielded run = []
  | None =>
      let rows := concat (yielded run) in
      length (yielded run) = ((length rows + chunkSize - 1) / chunkSize)%nat /\
      (forall k,
         yielded run !! k =
         if (k * chunkSize <? length rows)%nat
         then Some (take chunkSize (drop (k * chunkSize) rows))
         else None) /\
      Forall (fun chunk => (0 < length chunk <= chunkSize)%nat) (yielded run)
  end.
Proof.
  intros Hc run.
  destruct (executeStreamingQuery_cases LocalTZA this sql) as [(e & He) | (rows & Hrows)];
    subst run; [now rewrite He|].
  rewrite Hrows. cbn [failure yielded].
  assert (Hcat : concat (Db.sliceLoop (length rows) rows 0 chunkSize) = rows).
  { rewrite (sliceLoop_concat rows chunkSize Hc) by lia. apply drop_0. }
  rewrite Hcat. cbv zeta.
  assert (Hlook : forall k,
    Db.sliceLoop (length rows) rows 0 chunkSize !! k =
    if (k * chunkSize <? length rows)%nat
    then Some (take chunkSize (drop (k * chunkSize) rows)) else None).
  { intros k. now rewrite (sliceLoop_lookup rows chunkSize Hc (length rows) 0 k) by lia. }
  split; [now apply sliceLoop_length|]. split; [exact Hlook|].
  apply Forall_lookup. intros k chunk Hk. rewrite Hlook in Hk.
  destruct (Nat.ltb_spec (k * chunkSize) (length rows)) as [Hlt|]; [|discriminate].
  injection Hk as <-. rewrite length_take, length_drop. lia.
Qed.

Lemma executeStreamingQuery_chunks_witness :
  (0 < 5)%nat /\
  length (yielded (Db.executeStreamingQuery tzUTC sampleState "SELECT * FROM employees" 5))
  = 3%nat.
Proof.
  split; [lia|].
  exact (proj1 (executeStreamingQuery_chunks tzUTC sampleState "SELECT * FROM employees" 5
                  ltac:(lia))).
Defined.

(** X5.  [executeQuery] and [executeStreamingQuery] answer a query alike,
    for any positive [chunkSize]: when the one throws, the other throws the
    same error before it yields anything; when the one returns, the other
    ends normally and its chunks, put one after the other, are the returned
    [data], whose length is the returned [rowCount]. *)
Theorem executeQuery_executeStreamingQuery (LocalTZA : TimeZone) (now : Z * Z)
    (this : Db.State) (sql : string) (chunkSize : nat) :
  (0 < chunkSize)%nat ->
  let run := Db.executeStreamingQuery LocalTZA this sql chunkSize in
  match Db.executeQuery LocalTZA now this sql with
  | inl error => run = mkGenRun [] (Some error)
  | inr response =>
      failure run = None /\
      concat (yielded run) = data response /\
      rowCount response = length (data response) /\
      executionTime response = snd now - fst now
  end.
Proof.
  intros Hc run. subst run. unfold Db.executeQuery, Db.executeStreamingQuery.
  destruct (Db.initialized this); [|reflexivity].
  destruct (Db.connection this) as [connection|]; [|reflexivity].
  destruct (Db.runAndReadAll connection sql) as [error | reader]; [reflexivity|].
  destruct (Db.convertBigIntsToNumbers LocalTZA _) as [error | rows]; [reflexivity|].
  cbn [failure yielded data rowCount executionTime]. repeat split.
  rewrite (sliceLoop_concat _ chunkSize Hc) by apply Nat.le_refl. apply drop_0.
Qed.

Lemma executeQuery_executeStreamingQuery_witness :
  (0 < 50)%nat /\
  Db.executeStreamingQuery tzUTC sampleState "SELECT nothing" 50 =
  mkGenRun [] (Some (JsError "Binder Error: column nothing not found")).
Proof.
  split; [lia|].
  exact (executeQuery_executeStreamingQuery tzUTC (0, 3) sampleState "SELECT nothing" 50
           ltac:(lia)).
Defined.

(* ===================================================================== *)
(** * 20. The life cycle of the manager                                   *)
(* ===================================================================== *)

Lemma not_initialized (LocalTZA : TimeZone) (now : Z * Z) (this : DbAdmin.Fields)
    (sql : string) :
  DbAdmin.initialized this = false ->
  Db.executeQuery LocalTZA now (DbAdmin.state this) sql =
  inl (JsError "Database not initialized").
Proof. intros H. unfold Db.executeQuery, DbAdmin.state. cbn. now rewrite H. Qed.

(** X6.  [initialize] on a manager that is not yet initialized: when it
    returns, the CSV file was accessible, both statements of
    [createEmployeesTable] ran, the second one on the resolved path, and the
    manager is initialized with a connection; when it throws, the manager is
    still not initialized, whatever was assigned before the error, so that
    every query is refused with "Database not initialized".  On an
    initialized manager it changes nothing. *)
Theorem initialize_outcome (w : DbAdmin.World) (this : DbAdmin.Fields)
    (csvFilePath : string) :
  let after := (DbAdmin.initialize w this csvFilePath).1 in
  if DbAdmin.initialized this
  then DbAdmin.initialize w this csvFilePath = (this, inr tt)
  else
    match (DbAdmin.initialize w this csvFilePath).2 with
    | inr _ =>
        DbAdmin.access w csvFilePath = inr tt /\
        DbAdmin.run w DbAdmin.createTableSql = inr tt /\
        DbAdmin.run w (DbAdmin.copySql (DbAdmin.resolve w csvFilePath)) = inr tt /\
        DbAdmin.initialized after = true /\
        DbAdmin.instance after = true /\
        exists c, DbAdmin.connect w = inr c /\ DbAdmin.connection after = Some c
    | inl _ =>
        DbAdmin.initialized after = false /\
        forall LocalTZA now sql,
          Db.executeQuery LocalTZA now (DbAdmin.state after) sql =
          inl (JsError "Database not initialized")
    end.
Proof.
  intros after. subst after. unfold DbAdmin.initialize.
  destruct (DbAdmin.initialized this) eqn:Hinit; [reflexivity|].
  assert (Hrefused : forall after, DbAdmin.initialized after = false ->
    DbAdmin.initialized after = false /\
    forall LocalTZA now sql,
      Db.executeQuery LocalTZA now (DbAdmin.state after) sql =
      inl (JsError "Database not initialized")).
  { intros after H. split; [exact H|]. intros. now apply not_initialized. }
  destruct (DbAdmin.access w csvFilePath) as [e | []] eqn:Haccess;
    [now apply Hrefused|].
  destruct (DbAdmin.create w) as [e | []]; [now apply Hrefused|].
  destruct (DbAdmin.connect w) as [e | c] eqn:Hconnect; [now apply Hrefused|].
  unfold DbAdmin.createEmployeesTable. cbn [DbAdmin.connection DbAdmin.instance
    DbAdmin.initialized].
  destruct (DbAdmin.run w DbAdmin.createTableSql) as [e | []] eqn:Hcreate;
    [now apply Hrefused|].
  destruct (DbAdmin.run w (DbAdmin.copySql _)) as [e | []] eqn:Hcopy;
    [now apply Hrefused|].
  cbn. repeat split. now exists c.
Qed.

Lemma initialize_outcome_witness :
  DbAdmin.connection
    (DbAdmin.initialize brokenWorld (DbAdmin.mkFields false None false) "employees.csv").1
  = Some sampleConnection /\
  Db.executeQuery tzUTC (0, 3)
    (DbAdmin.state
       (DbAdmin.initialize brokenWorld (DbAdmin.mkFields false None false)
          "employees.csv").1)
    "SELECT * FROM employees" = inl (JsError "Database not initialized").
Proof.
  split; [reflexivity|].
  exact (proj2 (initialize_outcome brokenWorld (DbAdmin.mkFields false None false)
                  "employees.csv") tzUTC (0, 3) "SELECT * FROM employees").
Defined.

(** X7.  [close] swallows an error of [closeSync], and then leaves the
    manager as it was, still answering queries as before; in every other
    case the three fields are reset, every query is refused with
    "Database not initialized", and a later [initialize] starts afresh. *)
Theorem close_outcome (w : DbAdmin.World) (this : DbAdmin.Fields) :
  let after := DbAdmin.close w this in
  match DbAdmin.connection this, DbAdmin.closeSync w with
  | Some _, inl _ => after = this
  | _, _ =>
      after = DbAdmin.mkFields false None false /\
      (forall LocalTZA now sql,
         Db.executeQuery LocalTZA now (DbAdmin.state after) sql =
         inl (JsError "Database not initialized")) /\
      (forall LocalTZA sql chunkSize,
         Db.executeStreamingQuery LocalTZA (DbAdmin.state after) sql chunkSize =
         mkGenRun [] (Some (JsError "Database not initialized"))) /\
      (forall w' csvFilePath,
         DbAdmin.access w' csvFilePath = inr tt ->
         DbAdmin.create w' = inr tt ->
         DbAdmin.run w' DbAdmin.createTableSql = inr tt ->
         DbAdmin.run w' (DbAdmin.copySql (DbAdmin.resolve w' csvFilePath)) = inr tt ->
         forall c, DbAdmin.connect w' = inr c ->
         DbAdmin.initialize w' after csvFilePath =
         (DbAdmin.mkFields true (Some c) true, inr tt))
  end.
Proof.
  intros after. subst after. unfold DbAdmin.close.
  assert (Hreset :
    DbAdmin.mkFields false None false = DbAdmin.mkFields false None false /\
    (forall LocalTZA now sql,
       Db.executeQuery LocalTZA now (DbAdmin.state (DbAdmin.mkFields false None false)) sql =
       inl (JsError "Database not initialized")) /\
    (forall LocalTZA sql chunkSize,
       Db.executeStreamingQuery LocalTZA
         (DbAdmin.state (DbAdmin.mkFields false None false)) sql chunkSize =
       mkGenRun [] (Some (JsError "Database not initialized"))) /\
    (forall w' csvFilePath,
       DbAdmin.access w' csvFilePath = inr tt ->
       DbAdmin.create w' = inr tt ->
       DbAdmin.run w' DbAdmin.createTableSql = inr tt ->
       DbAdmin.run w' (DbAdmin.copySql (DbAdmin.resolve w' csvFilePath)) = inr tt ->
       forall c, DbAdmin.connect w' = inr c ->
       DbAdmin.initialize w' (DbAdmin.mkFields false None false) csvFilePath =
       (DbAdmin.mkFields true (Some c) true, inr tt))).
  { repeat split.
    intros w' csv Haccess Hcreate Htable Hcopy c Hconnect.
    unfold DbAdmin.initialize, DbAdmin.createEmployeesTable.
    cbn [DbAdmin.connection DbAdmin.instance DbAdmin.initialized].
    now rewrite Haccess, Hcreate, Hconnect, Htable, Hcopy. }
  destruct (DbAdmin.connection this) as [c|]; [|exact Hreset].
  destruct (DbAdmin.closeSync w) as [e | []]; [reflexivity | exact Hreset].
Qed.

Lemma close_outcome_witness :
  DbAdmin.initialize sampleWorld
    (DbAdmin.close sampleWorld (DbAdmin.mkFields true (Some sampleConnection) true))
    "employees.csv" =
  (DbAdmin.mkFields true (Some sampleConnection) true, inr tt).
Proof.
  exact (proj2 (proj2 (proj2
           (close_outcome sampleWorld (DbAdmin.mkFields true (Some sampleConnection) true))))
           sampleWorld "employees.csv" eq_refl eq_refl eq_refl eq_refl
           sampleConnection eq_refl).
Defined.

(** X8.  [getTableSchema] throws only when its fallback query throws as
    well, and then with the error of the fallback; when the first query
    returns, so do its rows; and when only the fallback returns, the answer
    has one entry per column, in the order of the columns, numbered from 1
    and of type 'unknown'. *)
Theorem getTableSchema_outcome (LocalTZA : TimeZone) (now1 now2 : Z * Z)
    (this : Db.State) (tableName : string) :
  let first := Db.executeQuery LocalTZA now1 this
    ("SELECT column_name, data_type FROM information_schema.columns WHERE table_name = '"
     +:+ tableName +:+ "'") in
  let fallback := Db.executeQuery LocalTZA now2 this
    ("SELECT * FROM " +:+ tableName +:+ " LIMIT 0") in
  match DbAdmin.getTableSchema LocalTZA now1 now2 this tableName with
  | inl error => (exists e, first = inl e) /\ fallback = inl error
  | inr entries =>
      match first with
      | inr result => entries = data result
      | inl _ =>
          exists result, fallback = inr result /\
            length entries = length (columns result) /\
            forall index col, columns result !! index = Some col ->
              entries !! index =
              Some (JObject [("column_name", JString col);
                             ("ordinal_position", JNumber (Z.of_nat index + 1));
                             ("data_type", JString "unknown")])
      end
  end.
Proof.
  intros first fallback. unfold DbAdmin.getTableSchema. fold first. fold fallback.
  destruct first as [e | result]; [|reflexivity].
  destruct fallback as [e' | result]; [split; eauto|].
  exists result. split; [reflexivity|]. split; [apply length_imap|].
  intros index col Hcol. rewrite list_lookup_imap, Hcol. reflexivity.
Qed.

(* ===================================================================== *)
(** * 21. [validateQuery]                                                 *)
(* ===================================================================== *)

Lemma toLowerChar_idem (c : ascii) : toLowerChar (toLowerChar c) = toLowerChar c.
Proof. destruct c as [[] [] [] [] [] [] [] []]; reflexivity. Qed.

Lemma toLowerCase_idem (s : string) : toLowerCase (toLowerCase s) = toLowerCase s.
Proof.
  induction s as [|c s IH]; simpl; [reflexivity|]. now rewrite toLowerChar_idem, IH.
Qed.

(** X9.  [validateQuery] does not see the case of the letters nor the
    white space around the query: it gives the same verdict on the query,
    on the query in lower case, and on the trimmed query. *)
Theorem validateQuery_normalises (sql : string) :
  Db.validateQuery (toLowerCase sql) = Db.validateQuery sql /\
  Db.validateQuery (trim sql) = Db.validateQuery sql.
Proof.
  rewrite !validateQuery_spec. split.
  - now rewrite toLowerCase_idem.
  - now rewrite toLowerCase_trim, trim_idem.
Qed.

Lemma startsWith_nil (k : string) : startsWith "" k = true -> k = "".
Proof. destruct k; [reflexivity | discriminate]. Qed.

Lemma startsWith_trimEnd (k : string) :
  (forall c, occurs c k = true -> isWhiteSpace c = false) ->
  forall s, startsWith s k = true -> startsWith (trimEnd s) k = true.
Proof.
  induction k as [|h k IH]; intros Hk s; [reflexivity|].
  destruct s as [|c s]; [discriminate|]. cbn [startsWith].
  destruct (Ascii.eqb h c) eqn:E; [|discriminate]. intros Hs.
  apply Ascii.eqb_eq in E. subst c.
  assert (Hh : isWhiteSpace h = false).
  { apply Hk. cbn [occurs]. now rewrite Ascii.eqb_refl. }
  assert (Hk' : forall c, occurs c k = true -> isWhiteSpace c = false).
  { intros c Hc. apply Hk. cbn [occurs]. rewrite Hc. apply orb_true_r. }
  specialize (IH Hk' s Hs). cbn [trimEnd].
  destruct (trimEnd s) as [|d r].
  - rewrite Hh. apply startsWith_nil in IH. subst k. cbn [startsWith].
    now rewrite Ascii.eqb_refl.
  - cbn [startsWith]. now rewrite Ascii.eqb_refl.
Qed.

Lemma includes_nil (k : string) : includes "" k = true -> k = "".
Proof. simpl. rewrite orb_false_r. apply startsWith_nil. Qed.

Lemma includes_trimEnd (k s : string) :
  k <> "" ->
  (forall c, occurs c k = true -> isWhiteSpace c = false) ->
  includes s k = true -> includes (trimEnd s) k = true.
Proof.
  intros Hne Hk. induction s as [|c s IH]; [exact id|].
  rewrite includes_cons. intros H. apply orb_true_iff in H as [H | H].
  - apply (startsWith_trimEnd k Hk) in H.
    destruct (trimEnd (String c s)); simpl; rewrite H; reflexivity.
  - specialize (IH H). cbn [trimEnd].
    destruct (trimEnd s) as [|d r]; [now apply includes_nil in IH|].
    rewrite includes_cons, IH. apply orb_true_r.
Qed.

Lemma includes_trimStart (k s : string) :
  k <> "" ->
  (forall c, occurs c k = true -> isWhiteSpace c = false) ->
  includes s k = true -> includes (trimStart s) k = true.
Proof.
  intros Hne Hk. induction s as [|c s IH]; [exact id|].
  cbn [trimStart]. destruct (isWhiteSpace c) eqn:W; [|exact id].
  rewrite includes_cons. intros H. apply orb_true_iff in H as [H | H]; [|now apply IH].
  destruct k as [|h k]; [contradiction|]. cbn [startsWith] in H.
  destruct (Ascii.eqb h c) eqn:E; [|discriminate].
  apply Ascii.eqb_eq in E. subst c.
  rewrite Hk in W; [discriminate|]. cbn [occurs]. now rewrite Ascii.eqb_refl.
Qed.

Lemma includes_self (k b : string) : includes (k +:+ b) k = true.
Proof.
  apply includes_app_l. destruct k as [|h k]; [reflexivity|].
  rewrite includes_cons. apply orb_true_iff. left.
  clear b. revert h. induction k as [|h' k IH]; intros h; cbn [startsWith];
    rewrite Ascii.eqb_refl; [reflexivity | apply IH].
Qed.

(** X10.  [validateQuery] looks for the dangerous keywords as substrings of
    the whole text: a query that contains one of them anywhere, in a column
    name such as created_at or inside a string literal, whatever stands
    before and after it, is rejected. *)
Theorem validateQuery_keyword_anywhere (before after keyword : string) :
  In keyword Db.dangerousKeywords ->
  Db.validateQuery (before +:+ keyword +:+ after) = false.
Proof.
  intros Hin. apply validateQuery_rejects. right. exists keyword. split; [exact Hin|].
  assert (Hk : keyword <> "" /\ toLowerCase keyword = keyword /\
               forall c, occurs c keyword = true -> isWhiteSpace c = false).
  { unfold Db.dangerousKeywords in Hin. cbn [In] in Hin.
    repeat (destruct Hin as [<- | Hin];
      [split; [discriminate|]; split; [reflexivity|];
       intros c Hc; cbn [occurs] in Hc;
       repeat (apply orb_true_iff in Hc as [Hc | Hc];
               [apply Ascii.eqb_eq in Hc; subst c; reflexivity|]);
       discriminate|]).
    contradiction. }
  destruct Hk as (Hne & Hlow & Hblack).
  rewrite !toLowerCase_app, Hlow. unfold trim.
  apply includes_trimEnd; [assumption..|].
  apply includes_trimStart; [assumption..|].
  apply includes_app_r, includes_self.
Qed.

Lemma validateQuery_keyword_anywhere_witness :
  Db.validateQuery ("SELECT " +:+ "update" +:+ "d_at FROM employees") = false.
Proof.
  apply validateQuery_keyword_anywhere. do 2 right. left. reflexivity.
Defined.

(* ===================================================================== *)
(** * 22. The three tool methods                                          *)
(* ===================================================================== *)

(** X11.  [streamExecute] is all or nothing.  It yields no event.  When it
    returns, the row source has ended normally, the content has one 'text'
    entry per row, in source order, and [_meta.totalRows] is their number.
    When it throws, it throws an Error, and either nothing was sent to the
    store or the row source has failed: the rows delivered before the
    failure are not returned. *)
Theorem streamExecute_outcome (db : DatabaseManager) (clk : Clock)
    (input : DbQueryToolInput) :
  let run := streamExecute db clk input in
  let source := executeStreamingQuery db (applyLimit input) 1 in
  events run = [] /\
  match result run with
  | inr out =>
      failure source = None /\
      calls run = [CallExecuteStreamingQuery (applyLimit input) 1] /\
      content out = entryOf <$> concat (yielded source) /\
      meta_totalRows (_meta out) = length (content out) /\
      streamingEnabled (_meta out) = true /\
      meta_timestamp (_meta out) = resultTimestamp clk
  | inl error =>
      (exists message, error = JsError message) /\
      (calls run = [] \/
       calls run = [CallExecuteStreamingQuery (applyLimit input) 1] /\
       exists e, failure source = Some e)
  end.
Proof.
  intros run source. subst run source.
  destruct (validateInput_cases db input) as [(Hne & Hv & _) | [m Hm]].
  - rewrite (stream_run db clk input Hne Hv). cbn [events result calls].
    split; [reflexivity|].
    destruct (failure _) as [e|].
    + split; [eauto|]. right. eauto.
    + cbn [content _meta meta_totalRows streamingEnabled meta_timestamp].
      rewrite length_fmap. repeat split.
  - rewrite (rejected_run_stream db clk input m Hm). cbn. split; [reflexivity|].
    split; [eauto | now left].
Qed.

Lemma tool_returns (db : DatabaseManager) (clk : Clock) (C D : nat)
    (input : DbQueryToolInput) :
  (0 < C)%nat -> result (executeStreamingToolWith db clk C D input) = inr tt.
Proof.
  intros HC. destruct (validateInput_cases db input) as [(Hne & Hv & _) | [m Hm]].
  - destruct (executeQuery db schemaProbe) as [e | resp] eqn:Hp.
    + now rewrite (run_probe_failed db clk C D input e Hne Hv Hp).
    + destruct (run_started db clk C D HC input resp Hne Hv Hp) as (cs & b & _ & ->).
      reflexivity.
  - now rewrite (run_rejected db clk C D input m Hm).
Qed.

(** X12.  [execute] never throws and yields no event.  It answers with the
    error object, with [data: []] and [totalRows: 0] and without any call
    of the manager, exactly when the input check or [validateQuery] refuses
    the input; otherwise it answers with the success object, whose events
    are those of [executeStreamingTool] on the limited query, and it has
    made the calls of that run: [success] is true also when these events
    end in a query_error. *)
Theorem execute_outcome (db : DatabaseManager) (clk : Clock) (input : DbQueryToolInput) :
  let run := execute db clk input in
  let inner := executeStreamingTool db clk (innerInput (applyLimit input) input) in
  events run = [] /\
  exists out, result run = inr (JSON_stringify out) /\
    match out with
    | ExecuteFailure error message data totalRows =>
        error = true /\ data = [] /\ totalRows = 0%nat /\ calls run = [] /\
        validateInput db input = throw (JsError message)
    | ExecuteSuccess success streaming streamChunkSize evs timestamp note =>
        success = true /\ streaming = true /\ streamChunkSize = 5%nat /\
        timestamp = resultTimestamp clk /\
        validateInput db input = mret tt /\
        evs = parseAll (events inner) /\
        calls run = calls inner
    end.
Proof.
  intros run inner. subst run.
  destruct (validateInput_cases db input) as [(Hne & Hv & Hok) | [m Hm]].
  - unfold execute. rewrite Hok, bind_mret_l. fold inner.
    pose proof (tool_returns db clk 5 50 (innerInput (applyLimit input) input)
                  ltac:(lia)) as Hret.
    fold (executeStreamingTool db clk (innerInput (applyLimit input) input)) in Hret.
    fold inner in Hret. unfold collect. rewrite Hret, bind_returned.
    unfold try_catch. cbn [result calls events mret M_ret app].
    split; [reflexivity|]. eexists. split; [reflexivity|].
    cbn beta iota. rewrite app_nil_r. repeat split.
  - rewrite (rejected_run_execute db clk input m Hm). cbn [events result mret M_ret].
    split; [reflexivity|]. eexists. split; [reflexivity|]. cbn. repeat split. exact Hm.
Qed.

Lemma tool_congruence (db : DatabaseManager) (clk : Clock) (C D : nat)
    (input input' : DbQueryToolInput) :
  validateInput db input = validateInput db input' ->
  applyLimit input = applyLimit input' ->
  executeStreamingToolWith db clk C D input = executeStreamingToolWith db clk C D input'.
Proof. intros Hv Hq. unfold executeStreamingToolWith. now rewrite Hv, Hq. Qed.

(** X13.  On the database manager of [db.ts], [execute] is the buffered form
    of [executeStreamingTool] on the same input: it makes the same calls,
    in the same order; its success object holds the events of that run;
    and its error object holds the message of the single query_error event
    of that run.  The second validation and the second limit step, made
    inside [execute] on the already limited query, change nothing. *)
Theorem execute_buffers_executeStreamingTool (LocalTZA : TimeZone) (now : Z * Z)
    (this : Db.State) (clk : Clock) (input : DbQueryToolInput) :
  let db := Db.manager LocalTZA now this in
  let stream := executeStreamingTool db clk input in
  calls (execute db clk input) = calls stream /\
  exists out, result (execute db clk input) = inr (JSON_stringify out) /\
    match out with
    | ExecuteSuccess _ _ _ evs _ _ => evs = parseAll (events stream)
    | ExecuteFailure _ message _ _ =>
        parseAll (events stream) = [query_error true message (errorTimestamp clk)]
    end.
Proof.
  intros db stream. subst stream.
  destruct (validateInput_cases db input) as [(Hne & Hv & Hok) | [m Hm]].
  - destruct (applyLimit_revalidate input Hv) as (Hqne & Hqv & Hfix).
    assert (Hsame : executeStreamingTool db clk (innerInput (applyLimit input) input) =
                    executeStreamingTool db clk input).
    { apply tool_congruence; [|exact Hfix].
      rewrite Hok. now apply validateInput_ok. }
    pose proof (tool_returns db clk 5 50 input ltac:(lia)) as Hret.
    fold (executeStreamingTool db clk input) in Hret.
    unfold execute. rewrite Hok, bind_mret_l, Hsame.
    unfold collect. rewrite Hret, bind_returned. unfold try_catch.
    cbn [result calls events mret M_ret app]. rewrite app_nil_r.
    split; [reflexivity|]. eexists. split; reflexivity.
  - rewrite (rejected_run_execute db clk input m Hm).
    unfold executeStreamingTool. rewrite (run_rejected db clk 5 50 input m Hm).
    split; [reflexivity|]. eexists. split; reflexivity.
Qed.

Lemma splitsInto_unique (C : nat) (rows : list Row) :
  forall cs cs' b b',
    splitsInto C rows cs b -> splitsInto C rows cs' b' -> cs = cs' /\ b = b'.
Proof.
  intros cs. revert rows. induction cs as [|c cs IH];
    intros rows cs' b b' (Hall & Hb & Hcat) (Hall' & Hb' & Hcat').
  - destruct cs' as [|c' cs']; simpl in *; [split; congruence|].
    apply Forall_cons in Hall' as [Hc' _]. subst rows.
    rewrite Hcat', !length_app in Hb. lia.
  - apply Forall_cons in Hall as [Hc Hall].
    destruct cs' as [|c' cs']; simpl in *.
    + subst rows. rewrite <- Hcat', !length_app in Hb'. lia.
    + apply Forall_cons in Hall' as [Hc' Hall'].
      rewrite Hcat, <- !app_assoc in Hcat'.
      apply app_inj_1 in Hcat' as [-> Hrest]; [|congruence].
      destruct (IH (concat cs ++ b) cs' b b') as [-> ->]; repeat split; auto.
Qed.

(** X14.  On the database manager of [db.ts] the size of the chunks in which
    the rows are read from the database does not show: whatever positive
    [dbChunkSize] stands in [executeStreamingTool], the run yields the same
    events and ends alike. *)
Theorem events_independent_of_dbChunkSize (LocalTZA : TimeZone) (now : Z * Z)
    (this : Db.State) (clk : Clock) (input : DbQueryToolInput) (C D D' : nat) :
  (0 < C)%nat -> (0 < D)%nat -> (0 < D')%nat ->
  let db := Db.manager LocalTZA now this in
  events (executeStreamingToolWith db clk C D input) =
  events (executeStreamingToolWith db clk C D' input) /\
  result (executeStreamingToolWith db clk C D input) =
  result (executeStreamingToolWith db clk C D' input).
Proof.
  intros HC HD HD' db.
  split; [|now rewrite !tool_returns by assumption].
  destruct (validateInput_cases db input) as [(Hne & Hv & _) | [m Hm]];
    [|now rewrite !(run_rejected db clk C _ input m Hm)].
  destruct (executeQuery db schemaProbe) as [e | resp] eqn:Hp;
    [now rewrite !(run_probe_failed db clk C _ input e Hne Hv Hp)|].
  destruct (run_started db clk C D HC input resp Hne Hv Hp) as (cs & b & Hs & ->).
  destruct (run_started db clk C D' HC input resp Hne Hv Hp) as (cs' & b' & Hs' & ->).
  cbn [events executeStreamingQuery db Db.manager] in *.
  rewrite (rows_independent_of_chunk_size LocalTZA this (applyLimit input) D D' HD HD')
    in Hs.
  destruct (splitsInto_unique C _ cs cs' b b' Hs Hs') as [-> ->].
  destruct (executeStreamingQuery_cases LocalTZA this (applyLimit input))
    as [(e & He) | (rows & Hrows)].
  - now rewrite !He.
  - rewrite !Hrows. cbn [failure yielded].
    now rewrite !sliceLoop_concat, !drop_0 by lia.
Qed.

Lemma events_independent_of_dbChunkSize_witness :
  ((0 < 5)%nat /\ (0 < 1)%nat /\ (0 < 50)%nat) /\
  events (executeStreamingToolWith sampleDb sampleClock 5 1 sampleInput) =
  events (executeStreamingToolWith sampleDb sampleClock 5 50 sampleInput).
Proof.
  split; [lia|].
  exact (proj1 (events_independent_of_dbChunkSize tzUTC (0, 3)
                  (Db.mkState (Some sampleConnection) true) sampleClock sampleInput
                  5 1 50 ltac:(lia) ltac:(lia) ltac:(lia))).
Defined.

(** X15.  [executeStreamingTool] never throws: every error ends up in an
    event.  What it sends to the store depends on the input check and on
    the schema probe only: nothing when the input is refused; the probe
    alone when the probe throws, and then the only event is the query_error
    with the probe's message; and the probe followed by the limited query
    otherwise.  The columns of the query_start event are those of the
    probe, which reads the employees table, whatever the query selects. *)
Theorem executeStreamingTool_store_calls (db : DatabaseManager) (clk : Clock)
    (input : DbQueryToolInput) :
  let run := executeStreamingTool db clk input in
  result run = inr tt /\
  if negb (String.eqb (sql input) "") && validateQuery db (sql input) then
    match executeQuery db schemaProbe with
    | inr response =>
        calls run = [CallExecuteQuery "SELECT * FROM employees LIMIT 0";
                     CallExecuteStreamingQuery (applyLimit input) 50] /\
        head (parseAll (events run)) =
          Some (query_start (applyLimit input) (columns response) (startTimestamp clk))
    | inl error =>
        calls run = [CallExecuteQuery "SELECT * FROM employees LIMIT 0"] /\
        parseAll (events run) =
          [query_error true (messageOr "Unknown error" error) (errorTimestamp clk)]
    end
  else
    calls run = [] /\
    parseAll (events run) =
      [query_error true
         (if String.eqb (sql input) "" then requiredMessage else invalidMessage)
         (errorTimestamp clk)].
Proof.
  intros run. subst run. unfold executeStreamingTool.
  split; [apply tool_returns; lia|].
  destruct (String.eqb_spec (sql input) "") as [E | E]; cbn [negb andb].
  - now rewrite (run_rejected db clk 5 50 input _ (validateInput_empty db input E)).
  - destruct (validateQuery db (sql input)) eqn:Hv.
    + destruct (executeQuery db schemaProbe) as [e | resp] eqn:Hp.
      * now rewrite (run_probe_failed db clk 5 50 input e E Hv Hp).
      * destruct (run_started db clk 5 50 ltac:(lia) input resp E Hv Hp)
          as (cs & b & _ & ->).
        cbn [calls events]. now rewrite parseAll_stringify.
    + now rewrite (run_rejected db clk 5 50 input _ (validateInput_invalid db input E Hv)).
Qed.

(* ===================================================================== *)
(** * 23. The handlers of [src/server.ts]                                 *)
(* ===================================================================== *)

Lemma sweep_lookup (sessionTTL now : Z)
    (sessions : gmap string Server.SessionInfo) (sessionId : string) :
  Server.cleanupExpiredSessions sessionTTL now sessions !! sessionId =
  match sessions !! sessionId with
  | Some session =>
      if now - Server.lastAccessed session >? sessionTTL then None else Some session
  | None => None
  end.
Proof.
  unfold Server.cleanupExpiredSessions. rewrite foldl_delete_lookup.
  match goal with |- context [decide ?P] => destruct (decide P) as [Hin | Hnin] end.
  - apply list_elem_of_bind in Hin as ([k s] & Hk & Hks).
    apply elem_of_map_to_list in Hks.
    destruct (now - Server.lastAccessed s >? sessionTTL) eqn:E;
      [|now apply not_elem_of_nil in Hk].
    apply list_elem_of_singleton in Hk. subst k. now rewrite Hks, E.
  - destruct (sessions !! sessionId) as [s|] eqn:Hs; [|reflexivity].
    destruct (now - Server.lastAccessed s >? sessionTTL) eqn:E; [|reflexivity].
    exfalso. apply Hnin. apply list_elem_of_bind. exists (sessionId, s). split.
    + rewrite E. now left.
    + now apply elem_of_map_to_list.
Qed.

(** X16.  The expiry sweep removes exactly the sessions that were last
    accessed more than [sessionTTL] before [now]: every other session is
    still in the map afterwards, unchanged, and no session is added.  A
    session accessed exactly [sessionTTL] ago stays.  A second sweep at the
    same time removes nothing more. *)
Theorem cleanupExpiredSessions_lookup (sessionTTL now : Z)
    (sessions : gmap string Server.SessionInfo) :
  let swept := Server.cleanupExpiredSessions sessionTTL now sessions in
  (forall sessionId,
     swept !! sessionId =
     match sessions !! sessionId with
     | Some session =>
         if now - Server.lastAccessed session >? sessionTTL then None else Some session
     | None => None
     end) /\
  Server.cleanupExpiredSessions sessionTTL now swept = swept.
Proof.
  intros swept. subst swept. split; [intros; apply sweep_lookup|].
  apply map_eq. intros sessionId. rewrite !sweep_lookup.
  destruct (sessions !! sessionId) as [session|]; [|reflexivity].
  destruct (now - Server.lastAccessed session >? sessionTTL) eqn:E; [reflexivity|].
  now rewrite E.
Qed.

(** X17.  A POST to [/mcp] changes the session map at one key at most: the
    session id, which is the [mcp-session-id] header, or a fresh UUID when
    the header is missing or empty.  A known session keeps its server, its
    transport and its creation time, and its last access becomes [now]; an
    unknown id gets a new session created and last accessed at [now],
    unless connecting its server fails, in which case the map stays as it
    was and the answer is the 500 body.  An error of the transport does not
    undo either update. *)
Theorem postMcp_sessions (w : Handlers.PostWorld)
    (sessions : gmap string Server.SessionInfo) (header : option string) :
  let sessionId := match header with
                   | Some (String c s) => String c s
                   | _ => Handlers.randomUUID w
                   end in
  let after := (Handlers.postMcp w sessions header).1 in
  (forall other, other <> sessionId -> after !! other = sessions !! other) /\
  match sessions !! sessionId with
  | Some session =>
      after !! sessionId =
        Some (Server.mkSessionInfo (Server.server session) (Server.transport session)
                (Server.createdAt session) (Handlers.now w))
  | None =>
      match Handlers.connect w with
      | inr _ =>
          after !! sessionId =
            Some (Server.mkSessionInfo (Handlers.newServer w) (Handlers.newTransport w)
                    (Handlers.now w) (Handlers.now w))
      | inl error =>
          Handlers.postMcp w sessions header =
            (sessions,
             if Handlers.headersSent w then Handlers.Unanswered
             else Handlers.InternalError 500 (-32603) "Internal error"
                    (messageOr "Unknown error" error))
      end
  end.
Proof.
  intros sessionId after. subst after. unfold Handlers.postMcp. fold sessionId.
  destruct (sessions !! sessionId) as [session|] eqn:Hs.
  - cbn [Server.transport Server.server Server.createdAt].
    destruct (Handlers.handleRequest w _); cbn [fst]; (split;
      [intros other Hne; apply lookup_insert_ne; congruence | apply lookup_insert_eq]).
  - destruct (Handlers.connect w) as [error | []].
    + cbn [fst]. split; [reflexivity | reflexivity].
    + cbn [Server.transport].
      destruct (Handlers.handleRequest w _); cbn [fst]; (split;
        [intros other Hne; apply lookup_insert_ne; congruence | apply lookup_insert_eq]).
Qed.

(** X18.  A session that has just served a POST survives every sweep made
    up to [sessionTTL] later, and is removed by any sweep made after that;
    until it is removed, a DELETE of its id answers 200 and removes it. *)
Theorem postMcp_then_sweep (w : Handlers.PostWorld)
    (sessions : gmap string Server.SessionInfo) (sessionId : string)
    (sessionTTL later : Z) (session : Server.SessionInfo) :
  sessionId <> "" ->
  let after := (Handlers.postMcp w sessions (Some sessionId)).1 in
  after !! sessionId = Some session ->
  Server.lastAccessed session = Handlers.now w /\
  Server.cleanupExpiredSessions sessionTTL later after !! sessionId =
    (if later - Handlers.now w >? sessionTTL then None else Some session) /\
  Server.deleteSession after sessionId =
    (delete sessionId after,
     Server.mkResponse 200 true ("Session " +:+ sessionId +:+ " terminated successfully")).
Proof.
  intros Hne after Hafter.
  assert (Hlast : Server.lastAccessed session = Handlers.now w).
  { subst after. destruct sessionId as [|c s]; [contradiction|].
    unfold Handlers.postMcp in Hafter.
    destruct (sessions !! String c s) as [old|] eqn:E.
    - destruct (Handlers.handleRequest w _); cbn [fst] in Hafter;
        rewrite lookup_insert_eq in Hafter; now injection Hafter as <-.
    - destruct (Handlers.connect w) as [error | []]; [cbn [fst] in Hafter; congruence|].
      destruct (Handlers.handleRequest w _); cbn [fst] in Hafter;
        rewrite lookup_insert_eq in Hafter; now injection Hafter as <-. }
  split; [exact Hlast|]. split.
  - rewrite sweep_lookup, Hafter, Hlast. reflexivity.
  - unfold Server.deleteSession. rewrite bool_decide_eq_true_2; [reflexivity|].
    rewrite Hafter. eauto.
Qed.

Lemma postMcp_then_sweep_witness :
  "s-1" <> "" /\
  Server.cleanupExpiredSessions 1800000 1805000
    (Handlers.postMcp samplePostWorld sampleSessions (Some "s-1")).1 !! "s-1" =
  Some (Server.mkSessionInfo 1 1 1000 5000) /\
  Server.cleanupExpiredSessions 1800000 1805001
    (Handlers.postMcp samplePostWorld sampleSessions (Some "s-1")).1 !! "s-1" = None.
Proof.
  split; [discriminate|]. split.
  - exact (proj1 (proj2 (postMcp_then_sweep samplePostWorld sampleSessions "s-1"
             1800000 1805000 (Server.mkSessionInfo 1 1 1000 5000)
             ltac:(discriminate) eq_refl))).
  - exact (proj1 (proj2 (postMcp_then_sweep samplePostWorld sampleSessions "s-1"
             1800000 1805001 (Server.mkSessionInfo 1 1 1000 5000)
             ltac:(discriminate) eq_refl))).
Defined.

Lemma streamExecute_throws (db : DatabaseManager) (clk : Clock)
    (input : DbQueryToolInput) (error : Thrown) :
  result (streamExecute db clk input) = inl error -> exists message, error = JsError message.
Proof.
  destruct (validateInput_cases db input) as [(Hne & Hv & _) | [m Hm]].
  - rewrite (stream_run db clk input Hne Hv). cbn [result].
    destruct (failure _); [|discriminate]. intros [= <-]. eauto.
  - rewrite (rejected_run_stream db clk input m Hm). intros [= <-]. eauto.
Qed.

Lemma streamExecute_events (db : DatabaseManager) (clk : Clock)
    (input : DbQueryToolInput) :
  events (streamExecute db clk input) = [].
Proof.
  destruct (validateInput_cases db input) as [(Hne & Hv & _) | [m Hm]].
  - now rewrite (stream_run db clk input Hne Hv).
  - now rewrite (rejected_run_stream db clk input m Hm).
Qed.

(** X19.  The CallTool handler never throws for the tool 'dbQueryTool' and
    yields no event: it returns what [streamExecute] returns, and when
    [streamExecute] throws, or when the request has no arguments, it returns
    the error answer, [isError: true] with a single 'text' entry that holds
    the plain message.  For any other tool name it throws
    "Unknown tool: <name>" without calling the manager. *)
Theorem callTool_outcome (db : DatabaseManager) (clk : Clock) (name : string)
    (args : option DbQueryToolInput) :
  let run := Handlers.callTool db clk name args in
  events run = [] /\
  if String.eqb name "dbQueryTool" then
    exists answer, result run = inr answer /\
      match answer, args with
      | Handlers.ToolResult out, Some input =>
          result (streamExecute db clk input) = inr out /\
          calls run = calls (streamExecute db clk input)
      | Handlers.ToolResult _, None => False
      | Handlers.ToolError content isError, Some input =>
          isError = true /\
          exists message, content = [Handlers.mkTextContent "text" message] /\
            result (streamExecute db clk input) = inl (JsError message) /\
            calls run = calls (streamExecute db clk input)
      | Handlers.ToolError content isError, None =>
          isError = true /\ calls run = [] /\
          content = [Handlers.mkTextContent "text" "Arguments are required for dbQueryTool"]
      end
  else result run = inl (JsError ("Unknown tool: " +:+ name)) /\ calls run = [].
Proof.
  intros run. subst run. unfold Handlers.callTool.
  destruct (String.eqb name "dbQueryTool"); [|repeat split].
  destruct args as [input|].
  - pose proof (streamExecute_throws db clk input) as Hthrows.
    pose proof (streamExecute_events db clk input) as Hevents.
    destruct (streamExecute db clk input) as [c ev [error | out]];
      cbn [events result calls] in *; subst ev.
    + destruct (Hthrows error eq_refl) as [message ->].
      rewrite bind_thrown. unfold try_catch.
      cbn [result calls events mret M_ret app messageOr].
      split; [reflexivity|]. eexists. split; [reflexivity|].
      split; [reflexivity|]. exists message. rewrite app_nil_r. repeat split.
    + rewrite bind_returned. unfold try_catch.
      cbn [result calls events mret M_ret app].
      split; [reflexivity|]. eexists. split; [reflexivity|].
      rewrite app_nil_r. split; reflexivity.
  - unfold try_catch. cbn. split; [reflexivity|]. eexists. split; [reflexivity|].
    repeat split.
Qed.

(** X20.  [getSchema] on the manager of [db.ts]: every error of the two
    queries comes out as an Error whose message starts with
    "Failed to get schema: ", so that a manager that is not initialized
    gives "Failed to get schema: Database not initialized"; an answer names
    the table 'employees', holds the schema and the five-row sample that
    the two manager methods returned, and the sample queries, every one of
    which [validateQuery] accepts. *)
Theorem getSchema_outcome (LocalTZA : TimeZone) (now1 now2 now3 : Z * Z)
    (this : Db.State) :
  let schemaOf := DbAdmin.getTableSchema LocalTZA now1 now2 this "employees" in
  let sampleOf := DbAdmin.getSampleEmployees LocalTZA now3 this in
  match getSchema schemaOf sampleOf with
  | inl error =>
      (exists message, error = JsError ("Failed to get schema: " +:+ message)) /\
      (Db.initialized this = false ->
       error = JsError "Failed to get schema: Database not initialized")
  | inr response =>
      Db.initialized this = true /\
      table (JSON_parse response) = "employees" /\
      schemaOf = inr (schema (JSON_parse response)) /\
      sampleOf 5 = inr (sampleData (JSON_parse response)) /\
      sampleQueries (JSON_parse response) = getSampleQueries /\
      forallb Db.validateQuery (sampleQueries (JSON_parse response)) = true
  end.
Proof.
  intros schemaOf sampleOf. unfold getSchema.
  assert (Hinit : Db.initialized this = false ->
    schemaOf = inl (JsError "Database not initialized")).
  { intros H. subst schemaOf. unfold DbAdmin.getTableSchema, Db.executeQuery.
    now rewrite H. }
  assert (Hinit' : forall n rows, sampleOf n = inr rows -> Db.initialized this = true).
  { intros n rows. subst sampleOf. unfold DbAdmin.getSampleEmployees, Db.executeQuery.
    destruct (Db.initialized this); [reflexivity | discriminate]. }
  destruct schemaOf as [error | entries].
  - split; [eauto|]. intros H. specialize (Hinit H). now injection Hinit as ->.
  - destruct (sampleOf 5) as [error | rows] eqn:Hsample.
    + split; [eauto|]. intros H. specialize (Hinit H). discriminate.
    + cbn [JSON_parse table schema sampleData sampleQueries].
      split; [exact (Hinit' 5 rows Hsample)|]. repeat split.
Qed.

(* ===================================================================== *)
(** * 24. Calendar dates through [convertBigIntsToNumbers]                *)
(* ===================================================================== *)

Lemma DayFromYear_mono (a b : Z) : a <= b -> DayFromYear a <= DayFromYear b.
Proof. unfold DayFromYear. intros H. Z.div_mod_to_equations. lia. Qed.

Lemma DaysInYear_cases (y : Z) : DaysInYear y = 365 + InLeapYear y.
Proof. unfold InLeapYear, DaysInYear. now destruct (_ && _). Qed.

Lemma InLeapYear_cases (y : Z) : InLeapYear y = 0 \/ InLeapYear y = 1.
Proof. unfold InLeapYear. destruct (_ =? _); auto. Qed.

Lemma YearFromDay_unique (y d : Z) :
  DayFromYear y <= d < DayFromYear (y + 1) -> YearFromDay d = y.
Proof.
  intros Hy. pose proof (YearFromDay_spec d) as HY.
  set (Y := YearFromDay d) in *.
  destruct (Z.lt_trichotomy Y y) as [Hlt | [Heq | Hgt]]; [|exact Heq|].
  - pose proof (DayFromYear_mono (Y + 1) y ltac:(lia)). lia.
  - pose proof (DayFromYear_mono (y + 1) Y ltac:(lia)). lia.
Qed.

Lemma month_cases (m : Z) :
  0 <= m <= 11 ->
  m = 0 \/ m = 1 \/ m = 2 \/ m = 3 \/ m = 4 \/ m = 5 \/ m = 6 \/ m = 7 \/ m = 8 \/
  m = 9 \/ m = 10 \/ m = 11.
Proof. lia. Qed.

Lemma DaysBeforeMonth_range (leap m : Z) :
  0 <= leap <= 1 -> 0 <= m <= 11 ->
  0 <= DaysBeforeMonth leap m /\
  DaysBeforeMonth leap m < DaysBeforeMonth leap (m + 1) <= 365 + leap.
Proof.
  intros Hl Hm. apply month_cases in Hm.
  repeat (destruct Hm as [Hm | Hm]; [subst m; simpl; lia|]). subst m. simpl. lia.
Qed.

Lemma DaysBeforeMonth_unique (leap m m' x : Z) :
  0 <= leap <= 1 -> 0 <= m <= 11 -> 0 <= m' <= 11 ->
  DaysBeforeMonth leap m <= x < DaysBeforeMonth leap (m + 1) ->
  DaysBeforeMonth leap m' <= x < DaysBeforeMonth leap (m' + 1) ->
  m' = m.
Proof.
  intros Hl Hm Hm'. apply month_cases in Hm. apply month_cases in Hm'.
  repeat (destruct Hm as [Hm | Hm]);
    repeat (destruct Hm' as [Hm' | Hm']); subst m m'; simpl; lia.
Qed.

(** The day number of a calendar date lies in its year and its month. *)
Lemma MakeDay_fields (y m d : Z) :
  0 <= m <= 11 -> 1 <= d <= DaysInMonth y m ->
  let t := MakeDay y m d * msPerDay in
  YearFromTime t = y /\ MonthFromTime t = m /\ DateFromTime t = d.
Proof.
  intros Hm Hd t. unfold DaysInMonth in Hd.
  pose proof (InLeapYear_cases y) as Hleap.
  pose proof (DaysBeforeMonth_range (InLeapYear y) m ltac:(lia) Hm) as Hrange.
  assert (HD : MakeDay y m d =
               DayFromYear y + DaysBeforeMonth (InLeapYear y) m + d - 1).
  { unfold MakeDay. rewrite Z.div_small, Z.mod_small by lia. f_equal. f_equal.
    f_equal; [f_equal; lia | f_equal; f_equal; lia]. }
  assert (Hyear : YearFromTime t = y).
  { unfold YearFromTime, t. rewrite Day_of_day. apply YearFromDay_unique.
    rewrite DayFromYear_succ, DaysInYear_cases, HD. lia. }
  assert (Hdwy : DayWithinYear t = DaysBeforeMonth (InLeapYear y) m + d - 1).
  { unfold DayWithinYear. rewrite Hyear. unfold t. rewrite Day_of_day, HD. lia. }
  assert (Hmonth : MonthFromTime t = m).
  { pose proof (MonthFromTime_spec t) as Hspec. cbv zeta in Hspec.
    rewrite Hyear, Hdwy in Hspec. destruct Hspec as [HM Hin].
    apply (DaysBeforeMonth_unique (InLeapYear y) m _
             (DaysBeforeMonth (InLeapYear y) m + d - 1)); lia. }
  split; [exact Hyear|]. split; [exact Hmonth|].
  unfold DateFromTime. rewrite Hyear, Hmonth, Hdwy. lia.
Qed.

Lemma MakeDay_bounds (y m d : Z) :
  0 <= y <= 9999 -> 0 <= m <= 11 -> 1 <= d <= DaysInMonth y m ->
  -800000 <= MakeDay y m d <= 3000000.
Proof.
  intros Hy Hm Hd. unfold DaysInMonth in Hd.
  pose proof (InLeapYear_cases y) as Hleap.
  pose proof (DaysBeforeMonth_range (InLeapYear y) m ltac:(lia) Hm) as Hrange.
  unfold MakeDay. rewrite Z.div_small, Z.mod_small by lia.
  replace (y + 0) with y by lia.
  unfold DayFromYear. Z.div_mod_to_equations. lia.
Qed.

(** X21.  Every calendar date of the years 0 to 9999, stored by DuckDB as
    its day number, is converted to the string YYYY-MM-DD of that very date
    in a process whose time zone has a fixed offset that is zero (UTC) or up
    to a day west of UTC; with a fixed offset east of UTC it is the date
    stored one day later that is converted to this string: there every
    date comes out one day early. *)
Theorem convertDate_calendar (offset y m d : Z) :
  0 <= y <= 9999 -> 0 <= m <= 11 -> 1 <= d <= DaysInMonth y m ->
  let iso := pad 4 y +:+ "-" +:+ pad 2 (m + 1) +:+ "-" +:+ pad 2 d in
  (- msPerDay < offset <= 0 ->
   Db.convertDate (tzFixed offset) (MakeDay y m d) = inr iso) /\
  (0 < offset <= msPerDay ->
   Db.convertDate (tzFixed offset) (MakeDay y m d + 1) = inr iso).
Proof.
  intros Hy Hm Hd iso.
  pose proof (MakeDay_bounds y m d Hy Hm Hd) as Hb.
  destruct (MakeDay_fields y m d Hm Hd) as (Hyear & Hmonth & Hdate).
  assert (Hiso : isoDate (MakeDay y m d * msPerDay) = iso).
  { unfold isoDate. rewrite Hyear, Hmonth, Hdate.
    destruct (Z.leb_spec 0 y); [|lia]. destruct (Z.leb_spec y 9999); [|lia].
    reflexivity. }
  split; intros Ho.
  - rewrite convertDate_west by lia. now rewrite Hiso.
  - destruct (convertDate_east offset (MakeDay y m d + 1) Ho ltac:(lia)) as [-> _].
    replace (MakeDay y m d + 1 - 1) with (MakeDay y m d) by lia. now rewrite Hiso.
Qed.

Lemma convertDate_calendar_witness :
  Db.convertDate tzNewYorkWinter (MakeDay 2024 1 29) = inr "2024-02-29" /\
  Db.convertDate tzKolkata (MakeDay 2024 1 29 + 1) = inr "2024-02-29".
Proof.
  split.
  - exact (proj1 (convertDate_calendar (-18000000) 2024 1 29
                    ltac:(lia) ltac:(lia) ltac:(vm_compute; split; discriminate))
             ltac:(vm_compute; split; [reflexivity | discriminate])).
  - exact (proj2 (convertDate_calendar 19800000 2024 1 29
                    ltac:(lia) ltac:(lia) ltac:(vm_compute; split; discriminate))
             ltac:(vm_compute; split; [reflexivity | discriminate])).
Defined.
